(** * DDNS updater: a shallow embedding of [main.py]

    The program keeps a list of DNS records pointed at the host's public
    address.  Everything it does is an exchange with an external
    collaborator (the configuration file, the address echo service, the DNS
    provider, the log), so the embedding threads an abstract world through
    the code and records every exchange in a trace.  The properties of the
    reconciliation cycle are then statements about traces. *)

From Stdlib Require Import List String Ascii ZArith Bool Arith Lia.
Import ListNotations.
Open Scope string_scope.
Open Scope list_scope.

#[local] Set Warnings "-register-all".

(** ** Python values *)

(** What [yaml.safe_load] can hand back.  Mapping keys are kept as strings:
    the program only ever subscripts with string literals. *)
Inductive yaml : Type :=
| YNull
| YBool (b : bool)
| YInt (z : Z)
| YStr (s : string)
| YList (items : list yaml)
| YMap (entries : list (string * yaml)).

(** The exceptions the program can meet.  All of them derive from Python's
    [Exception]; [Fault] stands for whatever an external collaborator raises
    (file system, YAML parser, HTTP transport, provider client). *)
Inductive exn : Type :=
| KeyError (key : string)
| TypeError
| IndexError
| Fault (msg : string).

Inductive outcome (A : Type) : Type :=
| Returned (a : A)
| Raised (e : exn).
Arguments Returned {A} a.
Arguments Raised {A} e.

Fixpoint assoc (k : string) (entries : list (string * yaml)) : option yaml :=
  match entries with
  | [] => None
  | (k', v) :: rest => if String.eqb k k' then Some v else assoc k rest
  end.

(** [d[k]] for a string key [k]. *)
Definition getitem (d : yaml) (k : string) : outcome yaml :=
  match d with
  | YMap entries =>
      match assoc k entries with
      | Some v => Returned v
      | None => Raised (KeyError k)
      end
  | _ => Raised TypeError
  end.

(** The sequence a [for] loop walks: the items of a list, the keys of a
    mapping, the characters of a string; anything else is not iterable. *)
Definition iter (v : yaml) : outcome (list yaml) :=
  match v with
  | YList items => Returned items
  | YMap entries => Returned (map (fun kv => YStr (fst kv)) entries)
  | YStr s => Returned (map (fun c => YStr (String c "")) (list_ascii_of_string s))
  | _ => Raised TypeError
  end.

(** Truth value of an [Optional[str]]: [None] and the empty string are false.
    The result carries the string when the test passes. *)
Definition truthy (v : option string) : option string :=
  match v with
  | Some s => if String.eqb s "" then None else Some s
  | None => None
  end.

(** ** Objects returned by the collaborators *)

(** [requests.Response]: the two attributes the program reads. *)
Record response : Type := { status_code : Z; text : string }.

(** A DNS record as the provider holds and returns it. *)
Record dns_record : Type :=
  { rec_id : string; rec_zone : string; rec_name : string; rec_content : string }.

(** The object returned by [client.dns.records.list].  The program tests the
    object itself ([if record:]) and then reads [record.result[0]];
    [page_truth] is the truth value Python gives the object. *)
Record page : Type := { page_truth : bool; result : list dns_record }.

(** The object returned by [client.dns.records.edit]; only its truth value is
    observed ([if response:]). *)
Record edit_response : Type := { response_truth : bool }.

(** ** The external world *)

(** One operation per collaborator.  Each takes the current world and gives
    back what the call returned or raised, and the world after the call.
    [safe_load] is [open] followed by [yaml.safe_load]; [records_list] and
    [records_edit] include the construction of the client. *)
Class World (W : Type) : Type :=
  { safe_load : string -> W -> outcome yaml * W;
    requests_get : string -> W -> outcome response * W;
    records_list : yaml -> yaml -> yaml -> yaml -> W -> outcome page * W;
    records_edit : yaml -> yaml -> yaml -> string -> string -> W ->
                   outcome edit_response * W;
    from_crontab : yaml -> outcome unit }.

Inductive level : Type := INFO | WARNING | ERROR.

(** The log lines of the program, one constructor per format string. *)
Inductive message : Type :=
| Error_retrieving_public_IP (e : exn)
| Found_record_ID_for (record_name : yaml) (record_id : string)
| Error_getting_record_ID (e : exn)
| DNS_record_updated_to (new_ip : string)
| Error_updating_DNS_record (e : exn)
| Starting_DDNS_update_process
| Failed_to_retrieve_public_IP
| Current_public_IP (current_ip : string)
| Processing_record (record_name : yaml)
| Failed_to_find_record_ID_for (record_name : yaml)
| Successfully_updated_DNS_record (record_name : yaml) (current_ip : string)
| Failed_to_update_DNS_record (record_name : yaml)
| DDNS_update_process_completed
| Starting_scheduler_with_cron (cron : yaml).

(** Everything observable from outside: log lines and calls, each call with
    what it was given and what came back. *)
Inductive event : Type :=
| Log (lvl : level) (m : message)
| Open (file_path : string) (r : outcome yaml)
| Get (url : string) (r : outcome response)
| List_records (api_email api_key zone_id record_name : yaml) (r : outcome page)
| Edit_record (api_email api_key zone_id : yaml) (record_id new_ip : string)
              (r : outcome edit_response).

Definition trace : Type := list event.

(** ** The monad of the program: world, exceptions, trace *)

Definition M (W A : Type) : Type := W -> outcome A * W * trace.

Definition ret {W A} (a : A) : M W A := fun w => (Returned a, w, []).

Definition bind {W A B} (c : M W A) (k : A -> M W B) : M W B :=
  fun w =>
    match c w with
    | (Returned a, w1, t1) =>
        match k a w1 with
        | (r, w2, t2) => (r, w2, t1 ++ t2)
        end
    | (Raised e, w1, t1) => (Raised e, w1, t1)
    end.

(** [try: body except Exception as e: handler e] *)
Definition try_except {W A} (body : M W A) (handler : exn -> M W A) : M W A :=
  fun w =>
    match body w with
    | (Returned a, w1, t1) => (Returned a, w1, t1)
    | (Raised e, w1, t1) =>
        match handler e w1 with
        | (r, w2, t2) => (r, w2, t1 ++ t2)
        end
    end.

Definition lift {W A} (r : outcome A) : M W A := fun w => (r, w, []).

Definition logger {W} (lvl : level) (m : message) : M W unit :=
  fun w => (Returned tt, w, [Log lvl m]).

Declare Scope py_scope.
Delimit Scope py_scope with py.
Notation "x <- c ;; k" := (bind c (fun x => k))
  (at level 61, c at next level, right associativity) : py_scope.
Notation "c ;;; k" := (bind c (fun _ => k))
  (at level 61, right associativity) : py_scope.
Open Scope py_scope.

(** [xs[0]] *)
Definition first {A} (xs : list A) : outcome A :=
  match xs with
  | x :: _ => Returned x
  | [] => Raised IndexError
  end.

Section Program.

Context {W : Type} `{World W}.

Definition call_open (file_path : string) : M W yaml :=
  fun w => let (r, w1) := safe_load file_path w in (r, w1, [Open file_path r]).

Definition call_get (url : string) : M W response :=
  fun w => let (r, w1) := requests_get url w in (r, w1, [Get url r]).

Definition call_list (api_email api_key zone_id record_name : yaml) : M W page :=
  fun w =>
    let (r, w1) := records_list api_email api_key zone_id record_name w in
    (r, w1, [List_records api_email api_key zone_id record_name r]).

Definition call_edit (api_email api_key zone_id : yaml) (record_id new_ip : string)
  : M W edit_response :=
  fun w =>
    let (r, w1) := records_edit api_email api_key zone_id record_id new_ip w in
    (r, w1, [Edit_record api_email api_key zone_id record_id new_ip r]).

(** main.py, lines 24-43 *)
Definition retrieve_current_public_ip : M W (option string) :=
  try_except
    (response <- call_get "https://ipinfo.io/ip" ;;
     let status := status_code response in
     let ip := text response in
     if (status =? 200)%Z then ret (Some ip) else ret None)
    (fun e => logger ERROR (Error_retrieving_public_IP e) ;;; ret None).

(** main.py, lines 45-50 *)
Definition read_secrets (file_path : string) : M W yaml :=
  call_open file_path.

(** main.py, lines 52-79 *)
Definition get_record_id (api_email api_key zone_id record_name : yaml)
  : M W (option string) :=
  try_except
    (record <- call_list api_email api_key zone_id record_name ;;
     if page_truth record then
       r0 <- lift (first (result record)) ;;
       let record_id := rec_id r0 in
       logger INFO (Found_record_ID_for record_name record_id) ;;;
       ret (Some record_id)
     else ret None)
    (fun e => logger ERROR (Error_getting_record_ID e) ;;; ret None).

(** main.py, lines 81-110 *)
Definition update_dns_record (api_email api_key zone_id : yaml)
           (record_id new_ip : string) : M W bool :=
  try_except
    (response <- call_edit api_email api_key zone_id record_id new_ip ;;
     if response_truth response then
       logger INFO (DNS_record_updated_to new_ip) ;;;
       ret true
     else ret false)
    (fun e => logger ERROR (Error_updating_DNS_record e) ;;; ret false).

(** [secrets['cloudflare'][key]] *)
Definition cloudflare (secrets : yaml) (key : string) : M W yaml :=
  cf <- lift (getitem secrets "cloudflare") ;;
  lift (getitem cf key).

(** main.py, lines 128-154: the body of the loop for one record name. *)
Definition update_record (secrets : yaml) (current_ip : string) (record_name : yaml)
  : M W unit :=
  logger INFO (Processing_record record_name) ;;;
  api_email <- cloudflare secrets "email" ;;
  api_key <- cloudflare secrets "api_key" ;;
  zone_id <- cloudflare secrets "zone_id" ;;
  record_id <- get_record_id api_email api_key zone_id record_name ;;
  match truthy record_id with
  | None =>
      logger WARNING (Failed_to_find_record_ID_for record_name)
  | Some record_id =>
      api_email <- cloudflare secrets "email" ;;
      api_key <- cloudflare secrets "api_key" ;;
      zone_id <- cloudflare secrets "zone_id" ;;
      success <- update_dns_record api_email api_key zone_id record_id current_ip ;;
      if success
      then logger INFO (Successfully_updated_DNS_record record_name current_ip)
      else logger ERROR (Failed_to_update_DNS_record record_name)
  end.

(** main.py, line 127: [for record_name in ...]. *)
Fixpoint update_records (secrets : yaml) (current_ip : string)
         (record_names : list yaml) : M W unit :=
  match record_names with
  | [] => ret tt
  | record_name :: rest =>
      update_record secrets current_ip record_name ;;;
      update_records secrets current_ip rest
  end.

(** main.py, lines 112-156 *)
Definition run_updater : M W unit :=
  logger INFO Starting_DDNS_update_process ;;;
  secrets <- read_secrets "secrets.yaml" ;;
  current_ip <- retrieve_current_public_ip ;;
  match truthy current_ip with
  | None =>
      logger ERROR Failed_to_retrieve_public_IP
  | Some current_ip =>
      logger INFO (Current_public_IP current_ip) ;;;
      record_names <- cloudflare secrets "record_names" ;;
      record_names <- lift (iter record_names) ;;
      update_records secrets current_ip record_names ;;;
      logger INFO DDNS_update_process_completed
  end.

(** [secrets['schedule']['cron']] *)
Definition schedule_cron (secrets : yaml) : M W yaml :=
  sch <- lift (getitem secrets "schedule") ;;
  lift (getitem sch "cron").

(** main.py, lines 159-168: read the configuration and arm the trigger. *)
Definition arm : M W unit :=
  secrets <- read_secrets "secrets.yaml" ;;
  cron <- schedule_cron secrets ;;
  lift (from_crontab cron) ;;;
  cron <- schedule_cron secrets ;;
  logger INFO (Starting_scheduler_with_cron cron).

(** [scheduler.start()], cut after a number of firings.  The scheduler runs
    the job synchronously and keeps going whatever the job raises. *)
Fixpoint start (firings : nat) : M W unit :=
  match firings with
  | O => ret tt
  | S n => try_except run_updater (fun _ => ret tt) ;;; start n
  end.

(** main.py, lines 158-169 *)
Definition main (firings : nat) : M W unit :=
  arm ;;; start firings.

End Program.

(** ** Reading a run *)

Definition result_of {W A} (x : outcome A * W * trace) : outcome A := fst (fst x).
Definition world_of {W A} (x : outcome A * W * trace) : W := snd (fst x).
Definition trace_of {W A} (x : outcome A * W * trace) : trace := snd x.

(** What [retrieve_current_public_ip] makes of the echo service's answer. *)
Definition address_of (r : outcome response) : option string :=
  match r with
  | Returned resp => if (status_code resp =? 200)%Z then Some (text resp) else None
  | Raised _ => None
  end.

(** What [get_record_id] makes of the provider's answer to the listing. *)
Definition found (r : outcome page) : option string :=
  match r with
  | Returned p =>
      if page_truth p
      then match result p with
           | r0 :: _ => Some (rec_id r0)
           | [] => None
           end
      else None
  | Raised _ => None
  end.

(** What [update_dns_record] makes of the provider's answer to the edit. *)
Definition acknowledged (r : outcome edit_response) : bool :=
  match r with
  | Returned resp => response_truth resp
  | Raised _ => false
  end.

Definition is_provider_call (ev : event) : bool :=
  match ev with
  | List_records _ _ _ _ _ | Edit_record _ _ _ _ _ _ => true
  | _ => false
  end.

(** The calls made to the DNS provider, in order. *)
Definition provider_calls (t : trace) : trace := filter is_provider_call t.

(** The answers of the address echo service, one per call made to it. *)
Definition fetches (t : trace) : list (outcome response) :=
  flat_map (fun ev => match ev with Get _ r => [r] | _ => [] end) t.

(** The reads of a configuration file, one per call. *)
Definition opens (t : trace) : list (string * outcome yaml) :=
  flat_map (fun ev => match ev with Open f r => [(f, r)] | _ => [] end) t.

(** The record names a listing was requested for, one per call. *)
Definition locate_attempts (t : trace) : list yaml :=
  flat_map (fun ev => match ev with List_records _ _ _ n _ => [n] | _ => [] end) t.

(** The addresses handed to the provider's edit, one per call. *)
Definition written (t : trace) : list string :=
  flat_map (fun ev => match ev with Edit_record _ _ _ _ ip _ => [ip] | _ => [] end) t.

(** The result [run_updater] records for a record name.  The loop body ends in
    one of three log lines, and these are all the results there are. *)
Inductive cycle_outcome : Type := updated | write_failed | lookup_failed.

Definition outcome_line (ev : event) : list (yaml * cycle_outcome) :=
  match ev with
  | Log WARNING (Failed_to_find_record_ID_for n) => [(n, lookup_failed)]
  | Log INFO (Successfully_updated_DNS_record n _) => [(n, updated)]
  | Log ERROR (Failed_to_update_DNS_record n) => [(n, write_failed)]
  | _ => []
  end.

Definition outcomes (t : trace) : list (yaml * cycle_outcome) :=
  flat_map outcome_line t.

(** ** The configuration the cycle expects *)

(** The provider section of the configuration, as the data model lists it:
    credentials, zone, and the record names in order. *)
Record provider_config : Type :=
  { email : yaml; api_key : yaml; zone_id : yaml; record_names : list yaml }.

Definition option_of {A} (r : outcome A) : option A :=
  match r with Returned a => Some a | Raised _ => None end.

Definition provider_section (secrets : yaml) : option provider_config :=
  match option_of (getitem secrets "cloudflare") with
  | Some cf =>
      match option_of (getitem cf "email"), option_of (getitem cf "api_key"),
            option_of (getitem cf "zone_id"), option_of (getitem cf "record_names") with
      | Some e, Some k, Some z, Some rn =>
          match option_of (iter rn) with
          | Some names =>
              Some {| email := e; api_key := k; zone_id := z; record_names := names |}
          | None => None
          end
      | _, _, _, _ => None
      end
  | None => None
  end.

(** ** A scripted world

    The collaborators answer from queues fixed in advance, one answer per
    call; a collaborator with nothing left to say is unreachable.  Any
    pattern of failures can be scripted. *)

Record script : Type :=
  { reads : list (outcome yaml);
    echoes : list (outcome response);
    listings : list (outcome page);
    edits : list (outcome edit_response) }.

Definition next {A} (q : list (outcome A)) : outcome A * list (outcome A) :=
  match q with
  | a :: q' => (a, q')
  | [] => (Raised (Fault "unreachable"), [])
  end.

#[export] Instance scripted : World script :=
  { safe_load := fun _ s =>
      let (r, q) := next (reads s) in
      (r, {| reads := q; echoes := echoes s; listings := listings s; edits := edits s |});
    requests_get := fun _ s =>
      let (r, q) := next (echoes s) in
      (r, {| reads := reads s; echoes := q; listings := listings s; edits := edits s |});
    records_list := fun _ _ _ _ s =>
      let (r, q) := next (listings s) in
      (r, {| reads := reads s; echoes := echoes s; listings := q; edits := edits s |});
    records_edit := fun _ _ _ _ _ s =>
      let (r, q) := next (edits s) in
      (r, {| reads := reads s; echoes := echoes s; listings := listings s; edits := q |});
    from_crontab := fun cron =>
      match cron with YStr _ => Returned tt | _ => Raised TypeError end }.

(** A configuration file with the given record names and schedule. *)
Definition secrets_yaml (names : list string) (cron : string) : yaml :=
  YMap [("cloudflare",
         YMap [("email", YStr "ops@example.com");
               ("api_key", YStr "k3y");
               ("zone_id", YStr "z0");
               ("record_names", YList (map YStr names))]);
        ("schedule", YMap [("cron", YStr cron)])].

Definition ok_response (ip : string) : outcome response :=
  Returned {| status_code := 200; text := ip |}.

Definition one_record (rid name ip : string) : dns_record :=
  {| rec_id := rid; rec_zone := "z0"; rec_name := name; rec_content := ip |}.

Definition page_of (records : list dns_record) : outcome page :=
  Returned {| page_truth := true; result := records |}.

Definition edit_ok : outcome edit_response := Returned {| response_truth := true |}.

(** ** A provider that stores records

    The DNS provider as the program uses it: listing returns the records of
    a zone that carry a name, in stored order; an edit overwrites the content
    of the record with the given identifier in the zone.  The configuration
    file and the echo service answer the same way at every call, and so do
    the provider's fault decisions; only the stored records change. *)

Definition store : Type := list dns_record.

Definition is_str (v : yaml) (s : string) : bool :=
  match v with
  | YStr s' => String.eqb s' s
  | _ => false
  end.

Definition matching (zone name : yaml) (r : dns_record) : bool :=
  is_str zone (rec_zone r) && is_str name (rec_name r).

Definition targets (zone : yaml) (rid : string) (r : dns_record) : bool :=
  is_str zone (rec_zone r) && String.eqb rid (rec_id r).

Definition set_content (new_ip : string) (r : dns_record) : dns_record :=
  {| rec_id := rec_id r; rec_zone := rec_zone r; rec_name := rec_name r;
     rec_content := new_ip |}.

Definition overwrite (zone : yaml) (rid new_ip : string) (s : store) : store :=
  map (fun r => if targets zone rid r then set_content new_ip r else r) s.

Section Provider.

Variable config_file : outcome yaml.
Variable echo : outcome response.
(** Whether the provider faults on a listing, and with what. *)
Variable list_fault : yaml -> yaml -> yaml -> yaml -> option exn.
(** The truth value of a page object holding so many records. *)
Variable truth_of_page : nat -> bool.
(** How the provider answers an edit it accepts to carry out. *)
Variable edit_answer : yaml -> yaml -> yaml -> string -> string -> outcome edit_response.

(** Modelled from the spec: the provider's "list records by zone and name"
    (section 6), which is a remote service and not part of the source. *)
Definition store_list (e k z n : yaml) (s : store) : outcome page * store :=
  match list_fault e k z n with
  | Some ex => (Raised ex, s)
  | None =>
      let matches := filter (matching z n) s in
      (Returned {| page_truth := truth_of_page (List.length matches); result := matches |}, s)
  end.

(** Modelled from the spec: the provider's "edit record by zone and record
    id", setting the content to the new address (section 6); a remote service
    and not part of the source. *)
Definition store_edit (e k z : yaml) (rid new_ip : string) (s : store)
  : outcome edit_response * store :=
  match edit_answer e k z rid new_ip with
  | Raised ex => (Raised ex, s)
  | Returned resp =>
      if existsb (targets z rid) s
      then (Returned resp, overwrite z rid new_ip s)
      else (Raised (Fault "record not found"), s)
  end.

#[export] Instance provider : World store :=
  { safe_load := fun _ s => (config_file, s);
    requests_get := fun _ s => (echo, s);
    records_list := store_list;
    records_edit := store_edit;
    from_crontab := fun _ => Returned tt }.

End Provider.

(** ** The cycle, written out

    What each operation leaves in the log beside its call, and the world and
    trace of the loop when the configuration has its provider section. *)

Definition resolver_log (r : outcome response) : trace :=
  match r with
  | Returned _ => []
  | Raised e => [Log ERROR (Error_retrieving_public_IP e)]
  end.

Definition locator_log (record_name : yaml) (r : outcome page) : trace :=
  match r with
  | Returned p =>
      if page_truth p
      then match result p with
           | r0 :: _ => [Log INFO (Found_record_ID_for record_name (rec_id r0))]
           | [] => [Log ERROR (Error_getting_record_ID IndexError)]
           end
      else []
  | Raised e => [Log ERROR (Error_getting_record_ID e)]
  end.

Definition writer_log (new_ip : string) (r : outcome edit_response) : trace :=
  match r with
  | Returned resp =>
      if response_truth resp then [Log INFO (DNS_record_updated_to new_ip)] else []
  | Raised e => [Log ERROR (Error_updating_DNS_record e)]
  end.

Definition verdict_line (record_name : yaml) (current_ip : string)
           (r : outcome edit_response) : event :=
  if acknowledged r
  then Log INFO (Successfully_updated_DNS_record record_name current_ip)
  else Log ERROR (Failed_to_update_DNS_record record_name).

Section Unfolded.

Context {W : Type} `{World W}.

Definition record_run (cfg : provider_config) (current_ip : string)
           (record_name : yaml) (w : W) : W * trace :=
  let (r, w1) := records_list (email cfg) (api_key cfg) (zone_id cfg) record_name w in
  let located :=
    Log INFO (Processing_record record_name)
    :: List_records (email cfg) (api_key cfg) (zone_id cfg) record_name r
    :: locator_log record_name r in
  match truthy (found r) with
  | None => (w1, located ++ [Log WARNING (Failed_to_find_record_ID_for record_name)])
  | Some record_id =>
      let (r2, w2) :=
        records_edit (email cfg) (api_key cfg) (zone_id cfg) record_id current_ip w1 in
      (w2, located
           ++ Edit_record (email cfg) (api_key cfg) (zone_id cfg) record_id current_ip r2
           :: writer_log current_ip r2
           ++ [verdict_line record_name current_ip r2])
  end.

Fixpoint records_run (cfg : provider_config) (current_ip : string)
         (names : list yaml) (w : W) : W * trace :=
  match names with
  | [] => (w, [])
  | record_name :: rest =>
      let (w1, t1) := record_run cfg current_ip record_name w in
      let (w2, t2) := records_run cfg current_ip rest w1 in
      (w2, t1 ++ t2)
  end.

End Unfolded.

(** ** Properties of whole computations *)

(** Every event a computation can emit, from any world, satisfies [P]. *)
Definition emits {W A} (P : event -> Prop) (c : M W A) : Prop :=
  forall w, Forall P (trace_of (c w)).

(** A computation that never lets an exception out. *)
Definition contained {W A} (c : M W A) : Prop :=
  forall w, exists a, result_of (c w) = Returned a.

(** ** Shapes of traces *)

(** The provider calls of a cycle over [names]: one listing per name, in
    order, each followed at once by one edit, of the identifier the listing
    gave and with the cycle's address, exactly when the listing gave a usable
    identifier. *)
Inductive in_order (cfg : provider_config) (current_ip : string)
  : list yaml -> trace -> Prop :=
| in_order_done : in_order cfg current_ip [] []
| in_order_skip n names r calls :
    truthy (found r) = None ->
    in_order cfg current_ip names calls ->
    in_order cfg current_ip (n :: names)
             (List_records (email cfg) (api_key cfg) (zone_id cfg) n r :: calls)
| in_order_write n names r record_id r2 calls :
    truthy (found r) = Some record_id ->
    in_order cfg current_ip names calls ->
    in_order cfg current_ip (n :: names)
             (List_records (email cfg) (api_key cfg) (zone_id cfg) n r
              :: Edit_record (email cfg) (api_key cfg) (zone_id cfg)
                             record_id current_ip r2
              :: calls).

(** What may happen once the address is known: no further read of the
    configuration, no further address lookup, and edits only with that
    address. *)
Definition after_resolution (current_ip : string) (ev : event) : Prop :=
  match ev with
  | Open _ _ | Get _ _ => False
  | Edit_record _ _ _ _ new_ip _ => new_ip = current_ip
  | _ => True
  end.

(** Events that are neither a read of the configuration nor a provider call. *)
Definition no_exchange (ev : event) : Prop :=
  match ev with
  | Log _ _ => True
  | _ => False
  end.

(** ** Scripted scenarios *)

Definition cron_5min : string := "*/5 * * * *".

(** Three records: the write of the first faults, the listing of the second
    faults, the third goes through. *)
Definition two_failures : script :=
  {| reads := [Returned (secrets_yaml ["a.example.com"; "c.example.com"; "b.example.com"]
                                      cron_5min)];
     echoes := [ok_response "203.0.113.7"];
     listings := [page_of [one_record "ra" "a.example.com" "198.51.100.1"];
                  Raised (Fault "connection reset");
                  page_of [one_record "rb" "b.example.com" "198.51.100.1"]];
     edits := [Raised (Fault "invalid record id"); edit_ok] |}.

(** The echo service answers 500. *)
Definition bad_status : script :=
  {| reads := [Returned (secrets_yaml ["a.example.com"; "b.example.com"] cron_5min)];
     echoes := [Returned {| status_code := 500; text := "Internal Server Error" |}];
     listings := [page_of [one_record "ra" "a.example.com" "198.51.100.1"]];
     edits := [edit_ok] |}.

(** The echo service answers 200 with an empty body. *)
Definition empty_body : script :=
  {| reads := [Returned (secrets_yaml ["a.example.com"] cron_5min)];
     echoes := [ok_response ""];
     listings := [page_of [one_record "ra" "a.example.com" "198.51.100.1"]];
     edits := [edit_ok] |}.

(** The configuration file cannot be read when the cycle fires. *)
Definition unreadable : script :=
  {| reads := [Raised (Fault "No such file or directory: secrets.yaml")];
     echoes := [ok_response "203.0.113.7"];
     listings := [page_of [one_record "ra" "a.example.com" "198.51.100.1"]];
     edits := [edit_ok] |}.

(** The configuration file is edited between startup and the first firing. *)
Definition reconfigured : script :=
  {| reads := [Returned (secrets_yaml ["a.example.com"] cron_5min);
               Returned (secrets_yaml ["b.example.com"] cron_5min)];
     echoes := [ok_response "203.0.113.7"];
     listings := [page_of [one_record "rb" "b.example.com" "198.51.100.1"]];
     edits := [edit_ok] |}.

(** One record name, and a provider that answers the listing as given. *)
Definition listing_answers (answer : outcome page) : script :=
  {| reads := [Returned (secrets_yaml ["c.example.com"] cron_5min)];
     echoes := [ok_response "203.0.113.7"];
     listings := [answer];
     edits := [edit_ok] |}.

Definition two_matches : outcome page :=
  page_of [one_record "r1" "a.example.com" "198.51.100.1";
           one_record "r2" "a.example.com" "198.51.100.2"].

Definition example_config : provider_config :=
  {| email := YStr "ops@example.com"; api_key := YStr "k3y"; zone_id := YStr "z0";
     record_names := [YStr "c.example.com"] |}.

(** ** Relations between stores *)

(** Two stores holding the same records up to their contents. *)
Definition same_keys (s t : store) : Prop :=
  Forall2 (fun r r' => rec_id r = rec_id r' /\ rec_zone r = rec_zone r' /\
                       rec_name r = rec_name r') s t.

(** Every record an edit of [(zone, rid)] would touch already holds [ip]. *)
Definition settled (zone : yaml) (rid ip : string) (s : store) : Prop :=
  Forall (fun r => targets zone rid r = true -> rec_content r = ip) s.

(** Scenario A on the storing provider: two records with a stale address. *)
Definition stale_store : store :=
  [one_record "ra" "a.example.com" "198.51.100.1";
   one_record "rb" "b.example.com" "198.51.100.1"].

Definition scenario_A_provider : World store :=
  provider (Returned (secrets_yaml ["a.example.com"; "b.example.com"] cron_5min))
           (ok_response "203.0.113.7")
           (fun _ _ _ _ => None)
           (fun _ => true)
           (fun _ _ _ _ _ => edit_ok).

(** ** Further readings of a trace and of a configuration *)

(** An edit is only ever asked for a non-empty record identifier. *)
Definition usable_edit (ev : event) : Prop :=
  match ev with
  | Edit_record _ _ _ record_id _ _ => record_id <> ""
  | _ => True
  end.

(** The result each record should be given, read off the provider calls
    alone: a listing without usable identifier is a lookup failure; a listing
    followed by its edit is an update when the edit was acknowledged and a
    write failure otherwise. *)
Fixpoint verdicts (calls : trace) : list (yaml * cycle_outcome) :=
  match calls with
  | [] => []
  | List_records _ _ _ n r :: rest =>
      match truthy (found r), rest with
      | Some _, Edit_record _ _ _ _ _ r2 :: rest' =>
          (n, if acknowledged r2 then updated else write_failed) :: verdicts rest'
      | _, _ => (n, lookup_failed) :: verdicts rest
      end
  | _ :: rest => verdicts rest
  end.

(** [secrets['cloudflare']['record_names']], walked as the loop walks it. *)
Definition configured_names (secrets : yaml) : outcome (list yaml) :=
  match getitem secrets "cloudflare" with
  | Returned cf =>
      match getitem cf "record_names" with
      | Returned rn => iter rn
      | Raised e => Raised e
      end
  | Raised e => Raised e
  end.

(** The three lookups the loop body makes before it calls the provider, in
    the order it makes them; the first that raises decides. *)
Definition credentials (secrets : yaml) : outcome (yaml * yaml * yaml) :=
  match getitem secrets "cloudflare" with
  | Returned cf =>
      match getitem cf "email" with
      | Returned e =>
          match getitem cf "api_key" with
          | Returned k =>
              match getitem cf "zone_id" with
              | Returned z => Returned (e, k, z)
              | Raised ex => Raised ex
              end
          | Raised ex => Raised ex
          end
      | Raised ex => Raised ex
      end
  | Raised ex => Raised ex
  end.

(** A configuration that names records but lacks the API key. *)
Definition secrets_without_api_key : yaml :=
  YMap [("cloudflare",
         YMap [("email", YStr "ops@example.com");
               ("zone_id", YStr "z0");
               ("record_names", YList [YStr "a.example.com"; YStr "b.example.com"])]);
        ("schedule", YMap [("cron", YStr cron_5min)])].

(** A configuration with a schedule only. *)
Definition secrets_without_provider : yaml :=
  YMap [("schedule", YMap [("cron", YStr cron_5min)])].

(** A configuration without schedule. *)
Definition secrets_without_schedule : yaml :=
  YMap [("cloudflare",
         YMap [("email", YStr "ops@example.com");
               ("api_key", YStr "k3y");
               ("zone_id", YStr "z0");
               ("record_names", YList [YStr "a.example.com"])])].

(** A healthy provider and echo service behind the given configuration file. *)
Definition healthy (secrets : yaml) : script :=
  {| reads := [Returned secrets; Returned secrets];
     echoes := [ok_response "203.0.113.7"];
     listings := [page_of [one_record "ra" "a.example.com" "198.51.100.1"];
                  page_of [one_record "rb" "b.example.com" "198.51.100.1"]];
     edits := [edit_ok; edit_ok] |}.

(** The provider hands back a record whose identifier is empty. *)
Definition empty_identifier : script :=
  {| reads := [Returned (secrets_yaml ["a.example.com"] cron_5min)];
     echoes := [ok_response "203.0.113.7"];
     listings := [page_of [one_record "" "a.example.com" "198.51.100.1"]];
     edits := [edit_ok] |}.

(** A record after a cycle with address [ip]: untouched, or the same record
    with [ip] as its content. *)
Definition rewritten (ip : string) (r r' : dns_record) : Prop :=
  r' = r \/ r' = set_content ip r.

(** The provider sections of the scenarios above. *)
Definition three_names_config : provider_config :=
  {| email := YStr "ops@example.com"; api_key := YStr "k3y"; zone_id := YStr "z0";
     record_names := [YStr "a.example.com"; YStr "c.example.com"; YStr "b.example.com"] |}.

Definition scenario_A_config : provider_config :=
  {| email := YStr "ops@example.com"; api_key := YStr "k3y"; zone_id := YStr "z0";
     record_names := [YStr "a.example.com"; YStr "b.example.com"] |}.

(** Any event but the two lines a cycle can end on. *)
Definition not_final (ev : event) : Prop :=
  match ev with
  | Log _ DDNS_update_process_completed | Log _ Failed_to_retrieve_public_IP => False
  | _ => True
  end.

(** A run that, if it returned, ended on the completion line, with neither
    final line anywhere before. *)
Definition ends_completed {W} (run : outcome unit * W * trace) : Prop :=
  match result_of run with
  | Returned _ =>
      exists t, Forall not_final t /\
                trace_of run = t ++ [Log INFO DDNS_update_process_completed]
  | Raised _ => Forall not_final (trace_of run)
  end.

(** * Proofs *)

(** ** Observations distribute over concatenation *)

Lemma provider_calls_app (t1 t2 : trace) :
  provider_calls (t1 ++ t2) = provider_calls t1 ++ provider_calls t2.
Proof. apply filter_app. Qed.

Lemma fetches_app (t1 t2 : trace) : fetches (t1 ++ t2) = fetches t1 ++ fetches t2.
Proof. apply flat_map_app. Qed.

Lemma opens_app (t1 t2 : trace) : opens (t1 ++ t2) = opens t1 ++ opens t2.
Proof. apply flat_map_app. Qed.

Lemma locate_attempts_app (t1 t2 : trace) :
  locate_attempts (t1 ++ t2) = locate_attempts t1 ++ locate_attempts t2.
Proof. apply flat_map_app. Qed.

Lemma written_app (t1 t2 : trace) : written (t1 ++ t2) = written t1 ++ written t2.
Proof. apply flat_map_app. Qed.

Lemma outcomes_app (t1 t2 : trace) : outcomes (t1 ++ t2) = outcomes t1 ++ outcomes t2.
Proof. apply flat_map_app. Qed.

Lemma flat_map_silent {A B} (f : A -> list B) (l : list A) :
  Forall (fun a => f a = []) l -> flat_map f l = [].
Proof.
  induction 1 as [|a l Ha _ IH]; simpl; [reflexivity|].
  now rewrite Ha, IH.
Qed.

Lemma filter_silent {A} (f : A -> bool) (l : list A) :
  Forall (fun a => f a = false) l -> filter f l = [].
Proof.
  induction 1 as [|a l Ha _ IH]; simpl; [reflexivity|].
  now rewrite Ha.
Qed.

(** ** The combinators preserve trace invariants and containment *)

Section Combinators.

Context {W : Type}.
Variable P : event -> Prop.

Lemma emits_ret {A} (a : A) : emits P (ret (W := W) a).
Proof. intro w; constructor. Qed.

Lemma emits_lift {A} (r : outcome A) : emits P (lift (W := W) r).
Proof. intro w; constructor. Qed.

Lemma emits_logger lvl m : P (Log lvl m) -> emits P (logger (W := W) lvl m).
Proof. intros HP w; repeat constructor; exact HP. Qed.

Lemma emits_bind {A B} (c : M W A) (k : A -> M W B) :
  emits P c -> (forall a, emits P (k a)) -> emits P (bind c k).
Proof.
  intros Hc Hk w. unfold bind. specialize (Hc w).
  destruct (c w) as [[[a|e] w1] t1]; simpl in *; [|exact Hc].
  specialize (Hk a w1). destruct (k a w1) as [[r w2] t2]; simpl in *.
  apply Forall_app; split; assumption.
Qed.

Lemma emits_try_except {A} (body : M W A) (handler : exn -> M W A) :
  emits P body -> (forall e, emits P (handler e)) -> emits P (try_except body handler).
Proof.
  intros Hb Hh w. unfold try_except. specialize (Hb w).
  destruct (body w) as [[[a|e] w1] t1]; simpl in *; [exact Hb|].
  specialize (Hh e w1). destruct (handler e w1) as [[r w2] t2]; simpl in *.
  apply Forall_app; split; assumption.
Qed.

Lemma contained_try_except {A} (body : M W A) (handler : exn -> M W A) :
  (forall e, contained (handler e)) -> contained (try_except body handler).
Proof.
  intros Hh w. unfold try_except.
  destruct (body w) as [[[a|e] w1] t1]; simpl; [now exists a|].
  destruct (Hh e w1) as [a Ha]. destruct (handler e w1) as [[r w2] t2].
  unfold result_of in *; simpl in *. now exists a.
Qed.

Lemma contained_bind {A B} (c : M W A) (k : A -> M W B) :
  contained c -> (forall a, contained (k a)) -> contained (bind c k).
Proof.
  intros Hc Hk w. unfold bind. destruct (Hc w) as [a Ha].
  destruct (c w) as [[r w1] t1]; unfold result_of in Ha; simpl in Ha; subst r.
  destruct (Hk a w1) as [b Hb]. destruct (k a w1) as [[r w2] t2].
  unfold result_of in *; simpl in *. now exists b.
Qed.

Lemma contained_ret {A} (a : A) : contained (ret (W := W) a).
Proof. intro w; now exists a. Qed.

Lemma contained_logger lvl m : contained (logger (W := W) lvl m).
Proof. intro w; now exists tt. Qed.

End Combinators.

Section Calls.

Context {W : Type} `{World W}.
Variable P : event -> Prop.

Lemma emits_call_open f : (forall r, P (Open f r)) -> emits P (call_open f).
Proof.
  intros HP w. unfold call_open. destruct (safe_load f w) as [r w1].
  repeat constructor; apply HP.
Qed.

Lemma emits_call_get u : (forall r, P (Get u r)) -> emits P (call_get u).
Proof.
  intros HP w. unfold call_get. destruct (requests_get u w) as [r w1].
  repeat constructor; apply HP.
Qed.

Lemma emits_call_list e k z n :
  (forall r, P (List_records e k z n r)) -> emits P (call_list e k z n).
Proof.
  intros HP w. unfold call_list. destruct (records_list e k z n w) as [r w1].
  repeat constructor; apply HP.
Qed.

Lemma emits_call_edit e k z rid ip :
  (forall r, P (Edit_record e k z rid ip r)) -> emits P (call_edit e k z rid ip).
Proof.
  intros HP w. unfold call_edit. destruct (records_edit e k z rid ip w) as [r w1].
  repeat constructor; apply HP.
Qed.

End Calls.

(** One step of a proof that a computation only emits events of a kind. *)
Ltac emits_step :=
  match goal with
  | |- emits _ (bind _ _) => apply emits_bind; [|intro]
  | |- emits _ (try_except _ _) => apply emits_try_except; [|intro]
  | |- emits _ (ret _) => apply emits_ret
  | |- emits _ (lift _) => apply emits_lift
  | |- emits _ (logger _ _) => apply emits_logger
  | |- emits _ (call_open _) => apply emits_call_open; intro
  | |- emits _ (call_get _) => apply emits_call_get; intro
  | |- emits _ (call_list _ _ _ _) => apply emits_call_list; intro
  | |- emits _ (call_edit _ _ _ _ _) => apply emits_call_edit; intro
  | |- emits _ (if ?b then _ else _) => destruct b
  | |- emits _ (match ?x with Some _ => _ | None => _ end) => destruct x
  end.

(** ** The three operations, as functions of the collaborator's answer *)

Section Operations.

Context {W : Type} `{World W}.

Lemma retrieve_current_public_ip_eq (w : W) :
  retrieve_current_public_ip w =
  let (r, w1) := requests_get "https://ipinfo.io/ip" w in
  (Returned (address_of r), w1, Get "https://ipinfo.io/ip" r :: resolver_log r).
Proof.
  unfold retrieve_current_public_ip, try_except, bind, call_get.
  destruct (requests_get _ w) as [[resp|e] w1]; simpl; [|reflexivity].
  destruct (status_code resp =? 200)%Z; reflexivity.
Qed.

Lemma get_record_id_eq (e k z n : yaml) (w : W) :
  get_record_id e k z n w =
  let (r, w1) := records_list e k z n w in
  (Returned (found r), w1, List_records e k z n r :: locator_log n r).
Proof.
  unfold get_record_id, try_except, bind, call_list.
  destruct (records_list e k z n w) as [[p|ex] w1]; simpl; [|reflexivity].
  destruct (page_truth p); simpl; [|reflexivity].
  destruct (result p) as [|r0 rest]; reflexivity.
Qed.

Lemma update_dns_record_eq (e k z : yaml) (rid ip : string) (w : W) :
  update_dns_record e k z rid ip w =
  let (r, w1) := records_edit e k z rid ip w in
  (Returned (acknowledged r), w1, Edit_record e k z rid ip r :: writer_log ip r).
Proof.
  unfold update_dns_record, try_except, bind, call_edit.
  destruct (records_edit e k z rid ip w) as [[resp|ex] w1]; simpl; [|reflexivity].
  destruct (response_truth resp); reflexivity.
Qed.

Lemma retrieve_current_public_ip_contained : contained retrieve_current_public_ip.
Proof.
  intro w. rewrite retrieve_current_public_ip_eq.
  destruct (requests_get _ w) as [r w1]. now exists (address_of r).
Qed.

Lemma get_record_id_contained e k z n : contained (get_record_id e k z n).
Proof.
  intro w. rewrite get_record_id_eq.
  destruct (records_list e k z n w) as [r w1]. now exists (found r).
Qed.

Lemma update_dns_record_contained e k z rid ip :
  contained (update_dns_record e k z rid ip).
Proof.
  intro w. rewrite update_dns_record_eq.
  destruct (records_edit e k z rid ip w) as [r w1]. now exists (acknowledged r).
Qed.

End Operations.

(** ** The loop, when the configuration has its provider section *)

Lemma provider_section_inv (secrets : yaml) (cfg : provider_config) :
  provider_section secrets = Some cfg ->
  exists cf rn,
    getitem secrets "cloudflare" = Returned cf /\
    getitem cf "email" = Returned (email cfg) /\
    getitem cf "api_key" = Returned (api_key cfg) /\
    getitem cf "zone_id" = Returned (zone_id cfg) /\
    getitem cf "record_names" = Returned rn /\
    iter rn = Returned (record_names cfg).
Proof.
  unfold provider_section.
  destruct (getitem secrets "cloudflare") as [cf|] eqn:Hcf; simpl; [|discriminate].
  destruct (getitem cf "email") as [e|] eqn:He; simpl; [|discriminate].
  destruct (getitem cf "api_key") as [k|] eqn:Hk; simpl; [|discriminate].
  destruct (getitem cf "zone_id") as [z|] eqn:Hz; simpl; [|discriminate].
  destruct (getitem cf "record_names") as [rn|] eqn:Hrn; simpl; [|discriminate].
  destruct (iter rn) as [names|] eqn:Hnames; simpl; [|discriminate].
  intros [= <-]. exists cf, rn. simpl. repeat split; assumption.
Qed.

Lemma locator_log_silent (n : yaml) (r : outcome page) :
  provider_calls (locator_log n r) = [] /\ locate_attempts (locator_log n r) = [] /\
  written (locator_log n r) = [] /\ outcomes (locator_log n r) = [].
Proof.
  destruct r as [p|e]; simpl; [|now repeat split].
  destruct (page_truth p); [|now repeat split].
  destruct (result p); now repeat split.
Qed.

Lemma writer_log_silent (ip : string) (r : outcome edit_response) :
  provider_calls (writer_log ip r) = [] /\ locate_attempts (writer_log ip r) = [] /\
  written (writer_log ip r) = [] /\ outcomes (writer_log ip r) = [].
Proof.
  destruct r as [resp|e]; simpl; [|now repeat split].
  destruct (response_truth resp); now repeat split.
Qed.

Lemma resolver_log_silent (r : outcome response) :
  provider_calls (resolver_log r) = [] /\ fetches (resolver_log r) = [] /\
  opens (resolver_log r) = [] /\ written (resolver_log r) = [] /\
  locate_attempts (resolver_log r) = [].
Proof. destruct r; now repeat split. Qed.

Section Loop.

Context {W : Type} `{World W}.
Variables (secrets : yaml) (cfg : provider_config).
Hypothesis configured : provider_section secrets = Some cfg.

Lemma cloudflare_email (w : W) :
  cloudflare secrets "email" w = (Returned (email cfg), w, []).
Proof.
  destruct (provider_section_inv _ _ configured) as (cf & rn & Hcf & He & _).
  unfold cloudflare, bind, lift. now rewrite Hcf, He.
Qed.

Lemma cloudflare_api_key (w : W) :
  cloudflare secrets "api_key" w = (Returned (api_key cfg), w, []).
Proof.
  destruct (provider_section_inv _ _ configured) as (cf & rn & Hcf & _ & Hk & _).
  unfold cloudflare, bind, lift. now rewrite Hcf, Hk.
Qed.

Lemma cloudflare_zone_id (w : W) :
  cloudflare secrets "zone_id" w = (Returned (zone_id cfg), w, []).
Proof.
  destruct (provider_section_inv _ _ configured) as (cf & rn & Hcf & _ & _ & Hz & _).
  unfold cloudflare, bind, lift. now rewrite Hcf, Hz.
Qed.

Lemma update_record_eq (ip : string) (n : yaml) (w : W) :
  update_record secrets ip n w =
  let (w1, t) := record_run cfg ip n w in (Returned tt, w1, t).
Proof.
  unfold update_record, record_run, bind, logger.
  rewrite cloudflare_email, cloudflare_api_key, cloudflare_zone_id.
  rewrite get_record_id_eq.
  destruct (records_list _ _ _ n w) as [r w1]. simpl.
  destruct (truthy (found r)) as [rid|]; [|reflexivity].
  rewrite cloudflare_email, cloudflare_api_key, cloudflare_zone_id.
  rewrite update_dns_record_eq.
  destruct (records_edit _ _ _ rid ip w1) as [r2 w2]. simpl.
  unfold verdict_line. destruct (acknowledged r2); reflexivity.
Qed.

Lemma update_records_eq (ip : string) (names : list yaml) (w : W) :
  update_records secrets ip names w =
  let (w1, t) := records_run cfg ip names w in (Returned tt, w1, t).
Proof.
  revert w. induction names as [|n rest IH]; intro w; simpl; [reflexivity|].
  unfold bind. rewrite update_record_eq.
  destruct (record_run cfg ip n w) as [w1 t1].
  rewrite IH. destruct (records_run cfg ip rest w1) as [w2 t2]. reflexivity.
Qed.

End Loop.

(** ** One record, and the records one after the other *)

Section Records.

Context {W : Type} `{World W}.
Variables (cfg : provider_config) (ip : string).

Lemma records_run_app (l1 l2 : list yaml) (w : W) :
  records_run cfg ip (l1 ++ l2) w =
  let (w1, t1) := records_run cfg ip l1 w in
  let (w2, t2) := records_run cfg ip l2 w1 in
  (w2, t1 ++ t2).
Proof.
  revert w. induction l1 as [|n l1 IH]; intro w; simpl.
  - destruct (records_run cfg ip l2 w); reflexivity.
  - destruct (record_run cfg ip n w) as [w1 t1]. rewrite IH.
    destruct (records_run cfg ip l1 w1) as [w2 t2].
    destruct (records_run cfg ip l2 w2) as [w3 t3].
    now rewrite app_assoc.
Qed.

(** The provider calls of one record: the listing, and the edit after it
    when the listing gave a usable identifier. *)
Lemma record_run_calls (n : yaml) (w : W) :
  exists r,
    fst (records_list (email cfg) (api_key cfg) (zone_id cfg) n w) = r /\
    match truthy (found r) with
    | None =>
        provider_calls (snd (record_run cfg ip n w)) =
        [List_records (email cfg) (api_key cfg) (zone_id cfg) n r]
    | Some rid =>
        exists r2,
        provider_calls (snd (record_run cfg ip n w)) =
        [List_records (email cfg) (api_key cfg) (zone_id cfg) n r;
         Edit_record (email cfg) (api_key cfg) (zone_id cfg) rid ip r2]
    end.
Proof.
  unfold record_run.
  destruct (records_list _ _ _ n w) as [r w1]. exists r. split; [reflexivity|].
  destruct (locator_log_silent n r) as (Hl & _).
  destruct (truthy (found r)) as [rid|].
  - destruct (records_edit _ _ _ rid ip w1) as [r2 w2]. exists r2. simpl.
    destruct (writer_log_silent ip r2) as (Hw & _).
    unfold provider_calls in *. rewrite filter_app, Hl. simpl.
    rewrite filter_app, Hw. unfold verdict_line.
    destruct (acknowledged r2); reflexivity.
  - simpl. unfold provider_calls in *. rewrite filter_app, Hl. reflexivity.
Qed.

Lemma record_run_attempt (n : yaml) (w : W) :
  locate_attempts (snd (record_run cfg ip n w)) = [n].
Proof.
  unfold record_run.
  destruct (records_list _ _ _ n w) as [r w1].
  destruct (locator_log_silent n r) as (_ & Hl & _).
  destruct (truthy (found r)) as [rid|].
  - destruct (records_edit _ _ _ rid ip w1) as [r2 w2]. simpl.
    destruct (writer_log_silent ip r2) as (_ & Hw & _).
    unfold locate_attempts in *. rewrite flat_map_app, Hl. simpl.
    rewrite flat_map_app, Hw. unfold verdict_line.
    destruct (acknowledged r2); reflexivity.
  - simpl. unfold locate_attempts in *. rewrite flat_map_app, Hl. reflexivity.
Qed.

(** One record leaves one result line, and which one depends only on the
    provider's answers to this record's own calls. *)
Lemma record_run_outcome (n : yaml) (w : W) :
  exists o,
    outcomes (snd (record_run cfg ip n w)) = [(n, o)] /\
    (o = lookup_failed <->
     truthy (found (fst (records_list (email cfg) (api_key cfg) (zone_id cfg) n w)))
     = None).
Proof.
  unfold record_run.
  destruct (records_list _ _ _ n w) as [r w1]. simpl fst.
  destruct (locator_log_silent n r) as (_ & _ & _ & Hl).
  destruct (truthy (found r)) as [rid|].
  - destruct (records_edit _ _ _ rid ip w1) as [r2 w2]. simpl.
    destruct (writer_log_silent ip r2) as (_ & _ & _ & Hw).
    unfold outcomes in *. rewrite flat_map_app, Hl. simpl.
    rewrite flat_map_app, Hw. unfold verdict_line.
    destruct (acknowledged r2); simpl.
    + exists updated. split; [reflexivity|]. split; discriminate.
    + exists write_failed. split; [reflexivity|]. split; discriminate.
  - simpl. unfold outcomes in *. rewrite flat_map_app, Hl. simpl.
    exists lookup_failed. now split.
Qed.

Lemma records_run_in_order (names : list yaml) (w : W) :
  in_order cfg ip names (provider_calls (snd (records_run cfg ip names w))).
Proof.
  revert w. induction names as [|n rest IH]; intro w; simpl; [constructor|].
  destruct (record_run_calls n w) as (r & Hr & Hcalls).
  destruct (record_run cfg ip n w) as [w1 t1]. specialize (IH w1).
  destruct (records_run cfg ip rest w1) as [w2 t2]. simpl in *.
  rewrite provider_calls_app.
  destruct (truthy (found r)) as [rid|] eqn:Hf.
  - destruct Hcalls as (r2 & ->). simpl. now apply in_order_write.
  - rewrite Hcalls. simpl. now apply in_order_skip.
Qed.

Lemma records_run_attempts (names : list yaml) (w : W) :
  locate_attempts (snd (records_run cfg ip names w)) = names.
Proof.
  revert w. induction names as [|n rest IH]; intro w; simpl; [reflexivity|].
  pose proof (record_run_attempt n w) as Hn.
  destruct (record_run cfg ip n w) as [w1 t1]. specialize (IH w1).
  destruct (records_run cfg ip rest w1) as [w2 t2]. simpl in *.
  now rewrite locate_attempts_app, Hn, IH.
Qed.

Lemma records_run_outcomes (names : list yaml) (w : W) :
  map fst (outcomes (snd (records_run cfg ip names w))) = names.
Proof.
  revert w. induction names as [|n rest IH]; intro w; simpl; [reflexivity|].
  destruct (record_run_outcome n w) as (o & Ho & _).
  destruct (record_run cfg ip n w) as [w1 t1]. specialize (IH w1).
  destruct (records_run cfg ip rest w1) as [w2 t2]. simpl in *.
  now rewrite outcomes_app, Ho, map_app, IH.
Qed.

(** One record: its provider calls and its result line, side by side. *)
Lemma record_run_summary (n : yaml) (w : W) :
  exists r,
    match truthy (found r) with
    | None =>
        provider_calls (snd (record_run cfg ip n w)) =
        [List_records (email cfg) (api_key cfg) (zone_id cfg) n r] /\
        outcomes (snd (record_run cfg ip n w)) = [(n, lookup_failed)]
    | Some rid =>
        exists r2,
        provider_calls (snd (record_run cfg ip n w)) =
        [List_records (email cfg) (api_key cfg) (zone_id cfg) n r;
         Edit_record (email cfg) (api_key cfg) (zone_id cfg) rid ip r2] /\
        outcomes (snd (record_run cfg ip n w)) =
        [(n, if acknowledged r2 then updated else write_failed)]
    end.
Proof.
  unfold record_run.
  destruct (records_list _ _ _ n w) as [r w1]. exists r.
  destruct (locator_log_silent n r) as (Hlc & _ & _ & Hlo).
  destruct (truthy (found r)) as [rid|].
  - destruct (records_edit _ _ _ rid ip w1) as [r2 w2]. exists r2. simpl.
    destruct (writer_log_silent ip r2) as (Hwc & _ & _ & Hwo).
    unfold provider_calls, outcomes in *.
    rewrite filter_app, flat_map_app, Hlc, Hlo. simpl.
    rewrite filter_app, flat_map_app, Hwc, Hwo. unfold verdict_line.
    destruct (acknowledged r2); split; reflexivity.
  - simpl. unfold provider_calls, outcomes in *.
    rewrite filter_app, flat_map_app, Hlc, Hlo. split; reflexivity.
Qed.

Lemma records_run_verdicts (names : list yaml) (w : W) :
  outcomes (snd (records_run cfg ip names w))
  = verdicts (provider_calls (snd (records_run cfg ip names w))).
Proof.
  revert w. induction names as [|n rest IH]; intro w; simpl; [reflexivity|].
  destruct (record_run_summary n w) as (r & Hsum).
  destruct (record_run cfg ip n w) as [w1 t1]. specialize (IH w1).
  destruct (records_run cfg ip rest w1) as [w2 t2]. simpl in *.
  rewrite outcomes_app, provider_calls_app, IH.
  destruct (truthy (found r)) as [rid|] eqn:Hf.
  - destruct Hsum as (r2 & -> & ->). simpl. now rewrite Hf.
  - destruct Hsum as (-> & ->). simpl. now rewrite Hf.
Qed.

End Records.

(** ** The cycle as a whole *)

Section Cycle.

Context {W : Type} `{World W}.

Lemma run_updater_unreadable (w w1 : W) (e : exn) :
  safe_load "secrets.yaml" w = (Raised e, w1) ->
  run_updater w =
  (Raised e, w1,
   [Log INFO Starting_DDNS_update_process; Open "secrets.yaml" (Raised e)]).
Proof.
  intro Hs. unfold run_updater, bind, logger, read_secrets, call_open.
  rewrite Hs. reflexivity.
Qed.

Lemma run_updater_unresolved (w w1 w2 : W) (secrets : yaml)
      (v : option string) (t : trace) :
  safe_load "secrets.yaml" w = (Returned secrets, w1) ->
  retrieve_current_public_ip w1 = (Returned v, w2, t) ->
  truthy v = None ->
  run_updater w =
  (Returned tt, w2,
   Log INFO Starting_DDNS_update_process
   :: Open "secrets.yaml" (Returned secrets)
   :: t ++ [Log ERROR Failed_to_retrieve_public_IP]).
Proof.
  intros Hs Hr Hv. unfold run_updater, bind, logger, read_secrets, call_open.
  rewrite Hs. cbv beta iota. rewrite Hr. cbv beta iota. rewrite Hv. reflexivity.
Qed.

Lemma run_updater_resolved (w w1 w2 : W) (secrets : yaml) (cfg : provider_config)
      (v : option string) (t : trace) (ip : string) :
  safe_load "secrets.yaml" w = (Returned secrets, w1) ->
  provider_section secrets = Some cfg ->
  retrieve_current_public_ip w1 = (Returned v, w2, t) ->
  truthy v = Some ip ->
  run_updater w =
  (Returned tt, fst (records_run cfg ip (record_names cfg) w2),
   Log INFO Starting_DDNS_update_process
   :: Open "secrets.yaml" (Returned secrets)
   :: t ++ Log INFO (Current_public_IP ip)
        :: snd (records_run cfg ip (record_names cfg) w2)
        ++ [Log INFO DDNS_update_process_completed]).
Proof.
  intros Hs Hcfg Hr Hv.
  destruct (provider_section_inv _ _ Hcfg) as (cf & rn & Hcf & _ & _ & _ & Hrn & Hnames).
  unfold run_updater, bind, logger, read_secrets, call_open.
  rewrite Hs. cbv beta iota. rewrite Hr. cbv beta iota. rewrite Hv.
  unfold cloudflare, bind, lift. rewrite Hcf, Hrn, Hnames. cbv beta iota.
  rewrite (update_records_eq _ _ Hcfg).
  destruct (records_run cfg ip (record_names cfg) w2) as [w3 t3]. reflexivity.
Qed.

Lemma retrieve_current_public_ip_trace (w w1 : W) (v : option string) (t : trace) :
  retrieve_current_public_ip w = (Returned v, w1, t) ->
  provider_calls t = [] /\ locate_attempts t = [] /\
  v = address_of (fst (requests_get "https://ipinfo.io/ip" w)).
Proof.
  rewrite retrieve_current_public_ip_eq.
  destruct (requests_get _ w) as [r w']. intros [= Hv Hw Ht]. subst v w1 t.
  destruct (resolver_log_silent r) as (Hp & _ & _ & _ & Hl).
  unfold provider_calls, locate_attempts in *. simpl. now repeat split.
Qed.

End Cycle.

(** ** What a cycle can emit, whatever the configuration holds *)

Lemma after_resolution_facts (ip : string) (t : trace) :
  Forall (after_resolution ip) t ->
  fetches t = [] /\ opens t = [] /\ (forall c, In c (written t) -> c = ip).
Proof.
  induction 1 as [|ev t Hev _ (IHf & IHo & IHw)]; simpl.
  - repeat split; try reflexivity. intros c [].
  - destruct ev; simpl in *; try contradiction; repeat split; auto.
    intros c [<-|Hc]; auto.
Qed.

Section Anatomy.

Context {W : Type} `{World W}.

Lemma cloudflare_emits (P : event -> Prop) (secrets : yaml) (key : string) :
  emits P (cloudflare (W := W) secrets key).
Proof. unfold cloudflare. repeat emits_step. Qed.

Lemma update_record_emits (secrets : yaml) (ip : string) (n : yaml) :
  emits (after_resolution ip) (update_record secrets ip n).
Proof.
  unfold update_record, get_record_id, update_dns_record.
  repeat (first [apply cloudflare_emits | emits_step]); exact I || reflexivity.
Qed.

Lemma update_records_emits (secrets : yaml) (ip : string) (names : list yaml) :
  emits (after_resolution ip) (update_records secrets ip names).
Proof.
  induction names as [|n rest IH]; simpl.
  - apply emits_ret.
  - apply emits_bind; [apply update_record_emits|intros _; exact IH].
Qed.

(** A cycle, from any world: the start line, the read of the configuration,
    and if that returned, the address lookup and what follows it. *)
Lemma run_updater_anatomy (w : W) :
  match safe_load "secrets.yaml" w with
  | (Raised e, _) =>
      trace_of (run_updater w) =
      [Log INFO Starting_DDNS_update_process; Open "secrets.yaml" (Raised e)]
  | (Returned secrets, w1) =>
      let r := fst (requests_get "https://ipinfo.io/ip" w1) in
      exists rest,
        trace_of (run_updater w) =
        Log INFO Starting_DDNS_update_process
        :: Open "secrets.yaml" (Returned secrets)
        :: Get "https://ipinfo.io/ip" r :: resolver_log r ++ rest /\
        match truthy (address_of r) with
        | None => rest = [Log ERROR Failed_to_retrieve_public_IP]
        | Some ip => Forall (after_resolution ip) rest
        end
  end.
Proof.
  destruct (safe_load "secrets.yaml" w) as [[secrets|e] w1] eqn:Hs.
  - unfold run_updater, bind at 1 2, logger at 1, read_secrets, call_open.
    rewrite Hs. cbv beta iota. unfold bind at 1.
    rewrite retrieve_current_public_ip_eq.
    destruct (requests_get _ w1) as [r w2]. simpl fst. cbv beta iota.
    destruct (truthy (address_of r)) as [ip|].
    + match goal with
      | |- context [match ?c w2 with _ => _ end] =>
          assert (Hem : emits (after_resolution ip) c)
      end.
      { repeat (first [apply cloudflare_emits | apply update_records_emits
                      | emits_step]); exact I. }
      specialize (Hem w2).
      match goal with
      | |- context [match ?c w2 with _ => _ end] => destruct (c w2) as [[res w3] t3]
      end.
      exists t3. split; [|exact Hem].
      reflexivity.
    + exists [Log ERROR Failed_to_retrieve_public_IP]. split; reflexivity.
  - now rewrite (run_updater_unreadable _ _ _ Hs).
Qed.

End Anatomy.

Lemma truthy_Some (v : option string) (s : string) :
  truthy v = Some s -> v = Some s /\ s <> "".
Proof.
  destruct v as [s'|]; simpl; [|discriminate].
  destruct (String.eqb_spec s' ""); [discriminate|]. now intros [= <-].
Qed.

Lemma address_of_Some (r : outcome response) (s : string) :
  address_of r = Some s ->
  exists resp, r = Returned resp /\ status_code resp = 200%Z /\ text resp = s.
Proof.
  destruct r as [resp|e]; simpl; [|discriminate].
  destruct (Z.eqb_spec (status_code resp) 200); [|discriminate].
  intros [= <-]. now exists resp.
Qed.

Lemma try_except_trace {W A} (c : M W A) (a : A) (w : W) :
  trace_of (try_except c (fun _ => ret a) w) = trace_of (c w).
Proof.
  unfold try_except. destruct (c w) as [[[x|e] w1] t]; simpl; [reflexivity|].
  unfold trace_of; simpl. apply app_nil_r.
Qed.

Lemma try_except_world {W A} (c : M W A) (a : A) (w : W) :
  world_of (try_except c (fun _ => ret a) w) = world_of (c w) /\
  exists x, result_of (try_except c (fun _ => ret a) w) = Returned x.
Proof.
  unfold try_except. destruct (c w) as [[[x|e] w1] t]; simpl.
  - split; [reflexivity|]. now exists x.
  - split; [reflexivity|]. now exists a.
Qed.

Section Observed.

Context {W : Type} `{World W}.

(** What a cycle reads, fetches and writes, from any world. *)
Lemma run_updater_observed (w : W) :
  opens (trace_of (run_updater w))
  = [("secrets.yaml", fst (safe_load "secrets.yaml" w))] /\
  fetches (trace_of (run_updater w))
  = match safe_load "secrets.yaml" w with
    | (Returned _, w1) => [fst (requests_get "https://ipinfo.io/ip" w1)]
    | (Raised _, _) => []
    end /\
  (forall c, In c (written (trace_of (run_updater w))) ->
     c <> "" /\
     exists resp, fetches (trace_of (run_updater w)) = [Returned resp] /\
                  status_code resp = 200%Z /\ text resp = c).
Proof.
  pose proof (run_updater_anatomy w) as Ha.
  destruct (safe_load "secrets.yaml" w) as [[secrets|e] w1]; simpl fst.
  - destruct Ha as (rest & -> & Hrest).
    set (r := fst (requests_get "https://ipinfo.io/ip" w1)) in *.
    destruct (resolver_log_silent r) as (_ & Hf & Ho & Hw & _).
    assert (Hquiet : fetches rest = [] /\ opens rest = [] /\
                     forall c, In c (written rest) ->
                               truthy (address_of r) = Some c).
    { destruct (truthy (address_of r)) as [ip|].
      - destruct (after_resolution_facts _ _ Hrest) as (H1 & H2 & H3).
        repeat split; auto. intros c Hc. now rewrite (H3 c Hc).
      - subst rest. repeat split; auto. intros c []. }
    destruct Hquiet as (Hf' & Ho' & Hw').
    unfold opens, fetches, written in *. simpl.
    rewrite !flat_map_app, ?Hf, ?Ho, ?Hw, ?Hf', ?Ho'. simpl.
    repeat split; auto.
    + apply Hw' in H0. now apply truthy_Some in H0.
    + apply Hw' in H0. apply truthy_Some in H0. destruct H0 as (Ha & _).
      apply address_of_Some in Ha. destruct Ha as (resp & -> & Hst & Htx).
      now exists resp.
  - rewrite Ha. simpl. repeat split; auto; contradiction.
Qed.

Lemma arm_opens (w : W) :
  opens (trace_of (arm w)) = [("secrets.yaml", fst (safe_load "secrets.yaml" w))].
Proof.
  unfold arm, bind at 1, read_secrets, call_open.
  destruct (safe_load "secrets.yaml" w) as [[secrets|e] w1]; simpl fst;
    cbv beta iota; [|reflexivity].
  match goal with
  | |- context [match ?c w1 with _ => _ end] => assert (Hem : emits no_exchange c)
  end.
  { unfold schedule_cron. repeat emits_step. exact I. }
  specialize (Hem w1).
  match goal with
  | |- context [match ?c w1 with _ => _ end] => destruct (c w1) as [[res w2] t2]
  end.
  unfold trace_of in *; simpl in *. f_equal.
  apply flat_map_silent. eapply Forall_impl; [|exact Hem].
  intros [] Hev; simpl in *; auto; contradiction.
Qed.

Lemma start_opens (n : nat) (w : W) :
  List.length (opens (trace_of (start n w))) = n.
Proof.
  revert w. induction n as [|n IH]; intro w; simpl; [reflexivity|].
  unfold bind.
  pose proof (try_except_trace run_updater tt w) as Ht.
  destruct (try_except_world run_updater tt w) as (_ & x & Hx).
  destruct (try_except run_updater (fun _ => ret tt) w) as [[res w1] t1].
  unfold result_of, trace_of in Ht, Hx; simpl in Ht, Hx. subst res t1.
  specialize (IH w1). destruct (start n w1) as [[res2 w2] t2].
  unfold trace_of in *; simpl in *.
  destruct (run_updater_observed w) as (Ho & _).
  unfold trace_of in Ho. rewrite opens_app, Ho, length_app, IH. reflexivity.
Qed.

(** The firings never let an exception out, whatever the cycles raise. *)
Lemma start_returns (n : nat) (w : W) : result_of (start n w) = Returned tt.
Proof.
  revert w. induction n as [|n IH]; intro w; simpl; [reflexivity|].
  unfold bind. destruct (try_except_world run_updater tt w) as (_ & x & Hx).
  destruct (try_except run_updater (fun _ => ret tt) w) as [[res w1] t1].
  unfold result_of in Hx; simpl in Hx. subst res.
  specialize (IH w1). destruct (start n w1) as [[res2 w2] t2].
  unfold result_of in *; simpl in *. exact IH.
Qed.

End Observed.

(** * The claims *)

Section Claims.

Context {W : Type} `{World W}.

(** C9: when the provider's answer to the listing passes the program's test
    [if record:] and holds one or more records, [get_record_id] returns the
    identifier of the first record of the answer, in the order the provider
    gave; nothing is sorted. *)
Theorem get_record_id_first_match
        (e k z n : yaml) (w w1 : W) (p : page) (r0 : dns_record)
        (others : list dns_record) :
  records_list e k z n w = (Returned p, w1) ->
  page_truth p = true ->
  result p = r0 :: others ->
  get_record_id e k z n w =
  (Returned (Some (rec_id r0)), w1,
   [List_records e k z n (Returned p);
    Log INFO (Found_record_ID_for n (rec_id r0))]).
Proof.
  intros Hl Ht Hr. rewrite get_record_id_eq, Hl. simpl.
  now rewrite Ht, Hr.
Qed.

(** C2: when the address lookup does not yield an address,
    [retrieve_current_public_ip] returning [None] or an empty string, the
    cycle logs the failure and returns at once, and the trace of the cycle
    holds no listing and no edit. *)
Theorem no_address_no_provider_call
        (w w1 w2 : W) (secrets : yaml) (v : option string) (t : trace) :
  safe_load "secrets.yaml" w = (Returned secrets, w1) ->
  retrieve_current_public_ip w1 = (Returned v, w2, t) ->
  truthy v = None ->
  run_updater w =
  (Returned tt, w2,
   Log INFO Starting_DDNS_update_process
   :: Open "secrets.yaml" (Returned secrets)
   :: t ++ [Log ERROR Failed_to_retrieve_public_IP]) /\
  provider_calls (trace_of (run_updater w)) = [].
Proof.
  intros Hs Hr Hv. rewrite (run_updater_unresolved _ _ _ _ _ _ Hs Hr Hv).
  split; [reflexivity|].
  destruct (retrieve_current_public_ip_trace _ _ _ _ Hr) as (Hp & _).
  unfold trace_of. simpl. rewrite provider_calls_app, Hp. reflexivity.
Qed.

(** C7: in a cycle that resolved an address, over a configuration with its
    provider section, the provider calls are exactly these: for each
    configured record name in configuration order, one listing, followed at
    once by one edit of the identifier found, with the cycle's address,
    exactly when the listing gave a usable identifier; the next name starts
    only after that. *)
Theorem records_located_then_written_in_order
        (w w1 w2 : W) (secrets : yaml) (cfg : provider_config)
        (v : option string) (t : trace) (ip : string) :
  safe_load "secrets.yaml" w = (Returned secrets, w1) ->
  provider_section secrets = Some cfg ->
  retrieve_current_public_ip w1 = (Returned v, w2, t) ->
  truthy v = Some ip ->
  in_order cfg ip (record_names cfg) (provider_calls (trace_of (run_updater w))) /\
  locate_attempts (trace_of (run_updater w)) = record_names cfg.
Proof.
  intros Hs Hcfg Hr Hv. rewrite (run_updater_resolved _ _ _ _ _ _ _ _ Hs Hcfg Hr Hv).
  destruct (retrieve_current_public_ip_trace _ _ _ _ Hr) as (Hp & Hl & _).
  unfold trace_of. simpl. split.
  - rewrite provider_calls_app, Hp. simpl.
    rewrite provider_calls_app. simpl. rewrite app_nil_r.
    apply records_run_in_order.
  - rewrite locate_attempts_app, Hl. simpl.
    rewrite locate_attempts_app. simpl. rewrite app_nil_r.
    apply records_run_attempts.
Qed.

(** C1: in a cycle that resolved an address, take any configured record
    name N, with the names before and after it.  Whatever the provider
    answered for the names before N and for N itself, the cycle returns
    normally.  N leaves one result line, for N, and it is a failure exactly
    when N's own steps failed: lookup-failed when N's listing gave no usable
    identifier (then no edit is made for N), write-failed when the edit that
    followed it was not acknowledged, updated otherwise.  Every name after N
    is listed, in order, and gets the result its own listing and edit call
    for. *)
Theorem failures_do_not_stop_the_cycle
        (w w1 w2 : W) (secrets : yaml) (cfg : provider_config)
        (v : option string) (t : trace) (ip : string)
        (before : list yaml) (n : yaml) (after : list yaml) :
  safe_load "secrets.yaml" w = (Returned secrets, w1) ->
  provider_section secrets = Some cfg ->
  retrieve_current_public_ip w1 = (Returned v, w2, t) ->
  truthy v = Some ip ->
  record_names cfg = before ++ n :: after ->
  exists w3 t_before t_n t_after o,
    run_updater w =
    (Returned tt, w3,
     Log INFO Starting_DDNS_update_process
     :: Open "secrets.yaml" (Returned secrets)
     :: t ++ Log INFO (Current_public_IP ip)
          :: t_before ++ t_n ++ t_after
          ++ [Log INFO DDNS_update_process_completed]) /\
    locate_attempts t_before = before /\
    locate_attempts t_n = [n] /\
    outcomes t_n = [(n, o)] /\
    ((exists r,
         truthy (found r) = None /\
         provider_calls t_n =
         [List_records (email cfg) (api_key cfg) (zone_id cfg) n r] /\
         o = lookup_failed) \/
     (exists r rid r2,
         truthy (found r) = Some rid /\
         provider_calls t_n =
         [List_records (email cfg) (api_key cfg) (zone_id cfg) n r;
          Edit_record (email cfg) (api_key cfg) (zone_id cfg) rid ip r2] /\
         o = if acknowledged r2 then updated else write_failed)) /\
    locate_attempts t_after = after /\
    map fst (outcomes t_after) = after /\
    outcomes t_after = verdicts (provider_calls t_after).
Proof.
  intros Hs Hcfg Hr Hv Hnames.
  rewrite (run_updater_resolved _ _ _ _ _ _ _ _ Hs Hcfg Hr Hv), Hnames.
  rewrite records_run_app. simpl.
  pose proof (records_run_attempts cfg ip before w2) as Hb.
  destruct (records_run cfg ip before w2) as [wb tb].
  pose proof (record_run_attempt cfg ip n wb) as Hn.
  destruct (record_run_summary cfg ip n wb) as (r & Hsum).
  destruct (record_run cfg ip n wb) as [wn tn].
  pose proof (records_run_attempts cfg ip after wn) as Ha.
  pose proof (records_run_outcomes cfg ip after wn) as Hao.
  pose proof (records_run_verdicts cfg ip after wn) as Hav.
  destruct (records_run cfg ip after wn) as [wa ta]. simpl in *.
  destruct (truthy (found r)) as [rid|] eqn:Hf.
  - destruct Hsum as (r2 & Hcalls & Hout).
    exists wa, tb, tn, ta, (if acknowledged r2 then updated else write_failed).
    repeat split; auto.
    + now rewrite <- !app_assoc.
    + right. now exists r, rid, r2.
  - destruct Hsum as (Hcalls & Hout).
    exists wa, tb, tn, ta, lookup_failed.
    repeat split; auto.
    + now rewrite <- !app_assoc.
    + left. now exists r.
Qed.

(** C10: an answer 200 with an empty body makes
    [retrieve_current_public_ip] return the empty string; [run_updater] then
    takes the failure branch and returns without any provider call; and in
    no cycle at all is the empty string handed to an edit. *)
Theorem empty_address_never_written (w : W) :
  (forall w1,
      requests_get "https://ipinfo.io/ip" w
      = (Returned {| status_code := 200; text := "" |}, w1) ->
      retrieve_current_public_ip w =
      (Returned (Some ""), w1,
       [Get "https://ipinfo.io/ip" (Returned {| status_code := 200; text := "" |})])) /\
  (forall secrets w1 w2,
      safe_load "secrets.yaml" w = (Returned secrets, w1) ->
      requests_get "https://ipinfo.io/ip" w1
      = (Returned {| status_code := 200; text := "" |}, w2) ->
      run_updater w =
      (Returned tt, w2,
       [Log INFO Starting_DDNS_update_process;
        Open "secrets.yaml" (Returned secrets);
        Get "https://ipinfo.io/ip" (Returned {| status_code := 200; text := "" |});
        Log ERROR Failed_to_retrieve_public_IP])) /\
  ~ In "" (written (trace_of (run_updater w))).
Proof.
  split; [|split].
  - intros w1 Hg. now rewrite retrieve_current_public_ip_eq, Hg.
  - intros secrets w1 w2 Hs Hg.
    rewrite (run_updater_unresolved w w1 w2 secrets (Some "")
               [Get "https://ipinfo.io/ip"
                    (Returned {| status_code := 200; text := "" |})] Hs);
      [reflexivity| |reflexivity].
    now rewrite retrieve_current_public_ip_eq, Hg.
  - intro Hin. destruct (run_updater_observed w) as (_ & _ & Hw).
    destruct (Hw _ Hin) as (Hne & _). now apply Hne.
Qed.

(** C4 (as amended): the address lookup, the listing and the edit each
    catch every fault inside themselves and return; a cycle whose
    configuration read returns a configuration with its provider section
    returns normally, whatever faults the lookup service and the provider
    produce; and only a startup error can end the process: once [main] has
    armed the trigger, nothing a cycle raises leaves [main]. *)
Theorem faults_contained_once_configured
        (w w1 : W) (secrets : yaml) (cfg : provider_config) :
  safe_load "secrets.yaml" w = (Returned secrets, w1) ->
  provider_section secrets = Some cfg ->
  contained (W := W) retrieve_current_public_ip /\
  (forall e k z n, contained (W := W) (get_record_id e k z n)) /\
  (forall e k z rid ip, contained (W := W) (update_dns_record e k z rid ip)) /\
  result_of (run_updater w) = Returned tt /\
  (forall (firings : nat) (w0 w0' : W) (t0 : trace),
      arm w0 = (Returned tt, w0', t0) ->
      result_of (main firings w0) = Returned tt).
Proof.
  intros Hs Hcfg. repeat split.
  - apply retrieve_current_public_ip_contained.
  - apply get_record_id_contained.
  - apply update_dns_record_contained.
  - destruct (retrieve_current_public_ip_contained w1) as (v & Hv).
    destruct (retrieve_current_public_ip w1) as [[res w2] t] eqn:Hr.
    unfold result_of in Hv; simpl in Hv; subst res.
    destruct (truthy v) as [ip|] eqn:Ht.
    + now rewrite (run_updater_resolved _ _ _ _ _ _ _ _ Hs Hcfg Hr Ht).
    + now rewrite (run_updater_unresolved _ _ _ _ _ _ Hs Hr Ht).
  - intros firings w0 w0' t0 Harm. unfold main, bind. rewrite Harm.
    pose proof (start_returns firings w0') as Hstart.
    destruct (start firings w0') as [[res w3] t3].
    unfold result_of in *; simpl in *. exact Hstart.
Qed.

(** C5 (as amended): for one record name, [run_updater] records one of the
    three results updated, write-failed, lookup-failed; and when the
    provider answers the listing with an empty match set, or faults,
    [get_record_id] returns [None] in both cases and the result recorded is
    lookup-failed in both cases. *)
Theorem not_found_is_a_lookup_failure
        (secrets : yaml) (cfg : provider_config) (ip : string) (n : yaml)
        (w w1 : W) (r : outcome page) :
  provider_section secrets = Some cfg ->
  records_list (email cfg) (api_key cfg) (zone_id cfg) n w = (r, w1) ->
  (exists o, outcomes (trace_of (update_record secrets ip n w)) = [(n, o)]) /\
  (match r with Returned p => result p = [] | Raised _ => True end ->
   result_of (get_record_id (email cfg) (api_key cfg) (zone_id cfg) n w)
   = Returned None /\
   outcomes (trace_of (update_record secrets ip n w)) = [(n, lookup_failed)]).
Proof.
  intros Hcfg Hl. rewrite (update_record_eq _ _ Hcfg).
  destruct (record_run_outcome cfg ip n w) as (o & Ho & Hiff).
  destruct (record_run cfg ip n w) as [w2 t2]. unfold trace_of. simpl in *.
  split; [now exists o|]. intro Hempty.
  rewrite get_record_id_eq, Hl. rewrite Hl in Hiff. simpl in Hiff.
  assert (Hf : found r = None).
  { destruct r as [p|e]; simpl in *; [|reflexivity].
    rewrite Hempty. now destruct (page_truth p). }
  rewrite Hf in *. simpl in Hiff. split; [reflexivity|].
  destruct Hiff as (_ & Hiff). now rewrite Ho, Hiff.
Qed.

(** C6 (as amended): a cycle calls the address lookup at most once, and
    exactly once when its configuration read returns; every address handed
    to an edit in the cycle is the body of the 200 answer that one call
    received. *)
Theorem one_address_per_cycle (w : W) :
  (List.length (fetches (trace_of (run_updater w))) <= 1)%nat /\
  (forall secrets w1,
      safe_load "secrets.yaml" w = (Returned secrets, w1) ->
      List.length (fetches (trace_of (run_updater w))) = 1%nat) /\
  (forall c,
      In c (written (trace_of (run_updater w))) ->
      exists resp,
        fetches (trace_of (run_updater w)) = [Returned resp] /\
        status_code resp = 200%Z /\ text resp = c).
Proof.
  destruct (run_updater_observed w) as (_ & Hf & Hw).
  split; [|split].
  - rewrite Hf. destruct (safe_load "secrets.yaml" w) as [[s|e] w1]; simpl; lia.
  - intros secrets w1 Hs. rewrite Hf, Hs. reflexivity.
  - intros c Hc. now destruct (Hw c Hc) as (_ & Hresp).
Qed.

(** C3 (as amended): every cycle reads the configuration file once, at its
    start, and gets what the file holds at that moment; a process that
    started and fired n cycles has read the file n + 1 times. *)
Theorem configuration_read_by_every_cycle :
  (forall w : W,
      opens (trace_of (run_updater w))
      = [("secrets.yaml", fst (safe_load "secrets.yaml" w))]) /\
  (forall (n : nat) (w w1 : W) (t : trace),
      arm w = (Returned tt, w1, t) ->
      List.length (opens (trace_of (main n w))) = S n).
Proof.
  split.
  - intro w. now destruct (run_updater_observed w) as (Ho & _).
  - intros n w w1 t Harm. pose proof (arm_opens w) as Ho.
    unfold main, bind. rewrite Harm in *.
    pose proof (start_opens n w1) as Hn.
    destruct (start n w1) as [[res w2] t2]. unfold trace_of in *; simpl in *.
    now rewrite opens_app, Ho, length_app, Hn.
Qed.

End Claims.

(** ** The storing provider *)

Lemma same_keys_refl (s : store) : same_keys s s.
Proof. induction s; constructor; auto. Qed.

Lemma same_keys_trans (s t u : store) : same_keys s t -> same_keys t u -> same_keys s u.
Proof.
  intros Hst. revert u. induction Hst as [|r r' s t (Hi & Hz & Hn) _ IH]; intros u Htu.
  - inversion Htu; constructor.
  - inversion Htu as [|? r'' ? u' (Hi' & Hz' & Hn') Htu']; subst.
    constructor; [|now apply IH]. repeat split; congruence.
Qed.

Lemma same_keys_overwrite (z : yaml) (rid ip : string) (s : store) :
  same_keys s (overwrite z rid ip s).
Proof.
  induction s as [|r s IH]; simpl; constructor; [|exact IH].
  destruct (targets z rid r); simpl; auto.
Qed.

Lemma same_keys_overwrite_l (z : yaml) (rid ip : string) (s t : store) :
  same_keys s t -> same_keys (overwrite z rid ip s) t.
Proof.
  induction 1 as [|r r' s t Hr _ IH]; simpl; constructor; [|exact IH].
  destruct (targets z rid r); simpl; exact Hr.
Qed.

Lemma same_keys_matching (z n : yaml) (s t : store) :
  same_keys s t -> same_keys (filter (matching z n) s) (filter (matching z n) t).
Proof.
  induction 1 as [|r r' s t (Hi & Hz & Hn) _ IH]; simpl; [constructor|].
  assert (Hm : matching z n r = matching z n r')
    by (unfold matching; now rewrite Hz, Hn).
  rewrite Hm. destruct (matching z n r'); [|exact IH].
  constructor; auto.
Qed.

Lemma same_keys_length (s t : store) : same_keys s t -> List.length s = List.length t.
Proof. induction 1; simpl; congruence. Qed.

Lemma same_keys_targets (z : yaml) (rid : string) (s t : store) :
  same_keys s t -> existsb (targets z rid) s = existsb (targets z rid) t.
Proof.
  induction 1 as [|r r' s t (Hi & Hz & Hn) _ IH]; simpl; [reflexivity|].
  assert (Hm : targets z rid r = targets z rid r')
    by (unfold targets; now rewrite Hi, Hz).
  now rewrite Hm, IH.
Qed.

Lemma settled_overwrite (z : yaml) (rid ip : string) (s : store) :
  settled z rid ip (overwrite z rid ip s).
Proof.
  induction s as [|r s IH]; simpl; constructor; [|exact IH].
  destruct (targets z rid r) eqn:Ht; simpl; [reflexivity|].
  intro Ht'. congruence.
Qed.

Lemma settled_preserved (z z' : yaml) (rid rid' ip : string) (s : store) :
  settled z rid ip s -> settled z rid ip (overwrite z' rid' ip s).
Proof.
  induction 1 as [|r s Hr _ IH]; simpl; constructor; [|exact IH].
  destruct (targets z' rid' r); [|exact Hr]. reflexivity.
Qed.

Lemma settled_fixed (z : yaml) (rid ip : string) (s : store) :
  settled z rid ip s -> overwrite z rid ip s = s.
Proof.
  induction 1 as [|r s Hr _ IH]; simpl; [reflexivity|]. rewrite IH. f_equal.
  destruct (targets z rid r); [|reflexivity].
  specialize (Hr eq_refl). destruct r; simpl in *. now subst.
Qed.

(** A cycle over a configuration without provider section leaves the world
    as the address lookup left it: it stops before the first provider call. *)
Lemma run_updater_malformed {W : Type} `{World W} (w w1 : W) (secrets : yaml) :
  safe_load "secrets.yaml" w = (Returned secrets, w1) ->
  provider_section secrets = None ->
  world_of (run_updater w) = world_of (retrieve_current_public_ip w1).
Proof.
  intros Hs Hnone.
  unfold run_updater, bind, logger, read_secrets, call_open. rewrite Hs. cbv beta iota.
  destruct (retrieve_current_public_ip w1) as [[[v|e] w2] t]; cbv beta iota;
    [|reflexivity].
  destruct (truthy v) as [ip|]; [|reflexivity].
  unfold cloudflare, bind, lift.
  destruct (getitem secrets "cloudflare") as [cf|] eqn:Hcf; [|reflexivity].
  destruct (getitem cf "record_names") as [rn|] eqn:Hrn; [|reflexivity].
  destruct (iter rn) as [names|] eqn:Hnames; [|reflexivity].
  destruct names as [|n rest]; [reflexivity|].
  simpl update_records. unfold update_record, bind, logger, cloudflare, bind, lift.
  rewrite Hcf.
  destruct (getitem cf "email") as [e|] eqn:He; [|reflexivity].
  destruct (getitem cf "api_key") as [k|] eqn:Hk; [|reflexivity].
  destruct (getitem cf "zone_id") as [z|] eqn:Hz; [|reflexivity].
  exfalso. unfold provider_section in Hnone.
  rewrite Hcf in Hnone. simpl in Hnone.
  rewrite He, Hk, Hz, Hrn in Hnone. simpl in Hnone.
  rewrite Hnames in Hnone. discriminate.
Qed.

Section Idempotence.

Variable config_file : outcome yaml.
Variable echo : outcome response.
Variable list_fault : yaml -> yaml -> yaml -> yaml -> option exn.
Variable truth_of_page : nat -> bool.
Variable edit_answer : yaml -> yaml -> yaml -> string -> string -> outcome edit_response.

#[local] Abbreviation P := (provider config_file echo list_fault truth_of_page edit_answer).

Lemma found_same_keys (e k z n : yaml) (s t : store) :
  same_keys s t ->
  found (fst (store_list list_fault truth_of_page e k z n s))
  = found (fst (store_list list_fault truth_of_page e k z n t)).
Proof.
  intro Hst. unfold store_list. destruct (list_fault e k z n); [reflexivity|].
  pose proof (same_keys_matching z n _ _ Hst) as Hm. simpl.
  rewrite (same_keys_length _ _ Hm).
  destruct (truth_of_page _); [|reflexivity].
  inversion Hm as [|r r' ? ? (Hi & _)]; [reflexivity|]. simpl. now rewrite Hi.
Qed.

Lemma store_edit_same_keys (e k z : yaml) (rid ip : string) (s t : store) :
  same_keys s t ->
  (snd (store_edit edit_answer e k z rid ip s) = s /\
   snd (store_edit edit_answer e k z rid ip t) = t) \/
  (snd (store_edit edit_answer e k z rid ip s) = overwrite z rid ip s /\
   snd (store_edit edit_answer e k z rid ip t) = overwrite z rid ip t).
Proof.
  intro Hst. unfold store_edit. destruct (edit_answer e k z rid ip); [|now left].
  rewrite (same_keys_targets z rid _ _ Hst).
  destruct (existsb (targets z rid) t); [now right|now left].
Qed.

Lemma record_run_store (cfg : provider_config) (ip : string) (n : yaml) (s : store) :
  fst (@record_run store P cfg ip n s) =
  match truthy (found (fst (store_list list_fault truth_of_page
                                       (email cfg) (api_key cfg) (zone_id cfg) n s))) with
  | None => s
  | Some rid =>
      snd (store_edit edit_answer (email cfg) (api_key cfg) (zone_id cfg) rid ip s)
  end.
Proof.
  unfold record_run. simpl records_list. simpl records_edit.
  assert (Hs : snd (store_list list_fault truth_of_page
                               (email cfg) (api_key cfg) (zone_id cfg) n s) = s).
  { unfold store_list. now destruct (list_fault _ _ _ n). }
  destruct (store_list list_fault truth_of_page _ _ _ n s) as [r s']. simpl in *.
  subst s'. destruct (truthy (found r)) as [rid|]; [|reflexivity].
  now destruct (store_edit edit_answer _ _ _ rid ip s).
Qed.

Lemma record_run_same_keys (cfg : provider_config) (ip : string) (n : yaml)
      (s t : store) :
  same_keys s t ->
  (fst (@record_run store P cfg ip n s) = s /\
   fst (@record_run store P cfg ip n t) = t) \/
  (exists z rid,
      fst (@record_run store P cfg ip n s) = overwrite z rid ip s /\
      fst (@record_run store P cfg ip n t) = overwrite z rid ip t).
Proof.
  intro Hst. rewrite !record_run_store.
  rewrite <- (found_same_keys _ _ _ n _ _ Hst).
  destruct (truthy (found _)) as [rid|]; [|now left].
  destruct (store_edit_same_keys (email cfg) (api_key cfg) (zone_id cfg) rid ip _ _ Hst)
    as [Hsame|Hover]; [now left|right].
  now exists (zone_id cfg), rid.
Qed.

Lemma records_run_keys (cfg : provider_config) (ip : string) (names : list yaml)
      (s : store) :
  same_keys s (fst (@records_run store P cfg ip names s)).
Proof.
  revert s. induction names as [|n rest IH]; intro s; simpl.
  - apply same_keys_refl.
  - pose proof (record_run_same_keys cfg ip n s s (same_keys_refl s)) as Hstep.
    destruct (@record_run store P cfg ip n s) as [s1 t1]. simpl in Hstep.
    specialize (IH s1).
    destruct (@records_run store P cfg ip rest s1) as [s2 t2]. simpl in *.
    destruct Hstep as [(-> & _)|(z & rid & -> & _)]; [exact IH|].
    eapply same_keys_trans; [apply same_keys_overwrite|exact IH].
Qed.

Lemma records_run_settled (cfg : provider_config) (ip : string) (names : list yaml)
      (z : yaml) (rid : string) (s : store) :
  settled z rid ip s ->
  settled z rid ip (fst (@records_run store P cfg ip names s)).
Proof.
  revert s. induction names as [|n rest IH]; intros s Hs; simpl; [exact Hs|].
  pose proof (record_run_same_keys cfg ip n s s (same_keys_refl s)) as Hstep.
  destruct (@record_run store P cfg ip n s) as [s1 t1]. simpl in Hstep.
  specialize (IH s1).
  destruct (@records_run store P cfg ip rest s1) as [s2 t2]. simpl in *.
  apply IH. destruct Hstep as [(-> & _)|(z' & rid' & -> & _)]; [exact Hs|].
  now apply settled_preserved.
Qed.

(** A store on which every edit of the cycle has already been carried out
    is left as it is by the cycle. *)
Lemma records_run_fixed (cfg : provider_config) (ip : string) (names : list yaml)
      (s t : store) :
  same_keys s t ->
  (forall z rid, settled z rid ip (fst (@records_run store P cfg ip names s)) ->
                 settled z rid ip t) ->
  fst (@records_run store P cfg ip names t) = t.
Proof.
  revert s. induction names as [|n rest IH]; intros s Hst Hsettled; simpl;
    [reflexivity|].
  simpl in Hsettled.
  pose proof (record_run_same_keys cfg ip n s t Hst) as Hstep.
  destruct (@record_run store P cfg ip n s) as [s1 t1].
  destruct (@record_run store P cfg ip n t) as [u1 t1']. simpl in Hstep.
  assert (Hu : u1 = t /\ same_keys s1 t).
  { destruct Hstep as [(-> & ->)|(z & rid & -> & ->)]; [now split|].
    assert (Hz : settled z rid ip t).
    { apply Hsettled.
      pose proof (records_run_settled cfg ip rest z rid _
                    (settled_overwrite z rid ip s)) as Hfin.
      now destruct (@records_run store P cfg ip rest (overwrite z rid ip s)). }
    split; [now apply settled_fixed|now apply same_keys_overwrite_l]. }
  destruct Hu as (-> & Hst1).
  specialize (IH s1 Hst1).
  destruct (@records_run store P cfg ip rest s1) as [s2 t2].
  destruct (@records_run store P cfg ip rest t) as [u2 t2']. simpl in *.
  now apply IH.
Qed.

Lemma records_run_idempotent (cfg : provider_config) (ip : string)
      (names : list yaml) (s : store) :
  fst (@records_run store P cfg ip names (fst (@records_run store P cfg ip names s)))
  = fst (@records_run store P cfg ip names s).
Proof.
  apply (records_run_fixed cfg ip names s).
  - apply records_run_keys.
  - auto.
Qed.

(** Which of the two a cycle is depends on the configuration file and the
    echo service only: one that leaves every store alone, or the loop over
    one fixed configuration with one fixed address. *)
Lemma run_updater_store :
  (forall s, world_of (@run_updater store P s) = s) \/
  (exists cfg ip,
      forall s, world_of (@run_updater store P s)
                = fst (@records_run store P cfg ip (record_names cfg) s)).
Proof.
  assert (Hr : forall s, @retrieve_current_public_ip store P s
                         = (Returned (address_of echo), s,
                            Get "https://ipinfo.io/ip" echo :: resolver_log echo)).
  { intro s. now rewrite retrieve_current_public_ip_eq. }
  assert (Hl : forall c, config_file = c ->
               forall s, @safe_load store P "secrets.yaml" s = (c, s))
    by (intros c <- s; reflexivity).
  assert (Hcase : (exists secrets, config_file = Returned secrets) \/
                  (exists e, config_file = Raised e))
    by (destruct config_file; eauto).
  destruct Hcase as [(secrets & Hcf)|(e & Hcf)].
  - destruct (truthy (address_of echo)) as [ip|] eqn:Hip.
    + destruct (provider_section secrets) as [cfg|] eqn:Hcfg.
      * right. exists cfg, ip. intro s.
        now rewrite (@run_updater_resolved store P s s s secrets cfg _ _ ip
                       (Hl _ Hcf s) Hcfg (Hr s) Hip).
      * left. intro s.
        now rewrite (@run_updater_malformed store P s s secrets (Hl _ Hcf s) Hcfg), Hr.
    + left. intro s.
      now rewrite (@run_updater_unresolved store P s s s secrets _ _
                     (Hl _ Hcf s) (Hr s) Hip).
  - left. intro s. now rewrite (@run_updater_unreadable store P s s e (Hl _ Hcf s)).
Qed.

End Idempotence.

(** C8: on the storing provider, with the configuration file and the echo
    service answering the same way at every call, a second cycle leaves the
    records exactly as the first cycle left them, from every store.  The
    write itself makes one provider call, the edit, whatever the record
    holds, and an edit the provider carries out leaves the given address in
    every record it targets. *)
Theorem cycle_idempotent
        (config_file : outcome yaml) (echo : outcome response)
        (list_fault : yaml -> yaml -> yaml -> yaml -> option exn)
        (truth_of_page : nat -> bool)
        (edit_answer : yaml -> yaml -> yaml -> string -> string -> outcome edit_response)
        (s : store) :
  world_of (@run_updater store
              (provider config_file echo list_fault truth_of_page edit_answer)
              (world_of (@run_updater store
                           (provider config_file echo list_fault truth_of_page edit_answer)
                           s)))
  = world_of (@run_updater store
                (provider config_file echo list_fault truth_of_page edit_answer) s) /\
  (forall e k z rid ip,
      provider_calls
        (trace_of (@update_dns_record store
                     (provider config_file echo list_fault truth_of_page edit_answer)
                     e k z rid ip s))
      = [Edit_record e k z rid ip (fst (store_edit edit_answer e k z rid ip s))] /\
      world_of (@update_dns_record store
                  (provider config_file echo list_fault truth_of_page edit_answer)
                  e k z rid ip s)
      = match edit_answer e k z rid ip with
        | Returned _ => if existsb (targets z rid) s then overwrite z rid ip s else s
        | Raised _ => s
        end /\
      settled z rid ip (overwrite z rid ip s)).
Proof.
  split.
  - destruct (run_updater_store config_file echo list_fault truth_of_page edit_answer)
      as [Hsame|(cfg & ip & Hloop)].
    + now rewrite !Hsame.
    + rewrite !Hloop. apply records_run_idempotent.
  - intros e k z rid ip. rewrite update_dns_record_eq. simpl records_edit.
    repeat split.
    + destruct (store_edit edit_answer e k z rid ip s) as [r s1].
      destruct (writer_log_silent ip r) as (Hw & _).
      unfold trace_of, provider_calls in *. simpl. now rewrite Hw.
    + unfold store_edit. destruct (edit_answer e k z rid ip); [|reflexivity].
      now destruct (existsb (targets z rid) s).
    + apply settled_overwrite.
Qed.

(** Scenario A of the specification on the storing provider: both records
    end up holding the address, and a second cycle changes nothing. *)
Example scenario_A_store :
  world_of (@run_updater store scenario_A_provider stale_store)
  = [one_record "ra" "a.example.com" "203.0.113.7";
     one_record "rb" "b.example.com" "203.0.113.7"] /\
  outcomes (trace_of (@run_updater store scenario_A_provider stale_store))
  = [(YStr "a.example.com", updated); (YStr "b.example.com", updated)] /\
  world_of (@run_updater store scenario_A_provider
              (world_of (@run_updater store scenario_A_provider stale_store)))
  = world_of (@run_updater store scenario_A_provider stale_store).
Proof. repeat split; reflexivity. Qed.

(** ** The claims at concrete inputs *)

Lemma get_record_id_first_match_witness :
  get_record_id (YStr "ops@example.com") (YStr "k3y") (YStr "z0") (YStr "a.example.com")
                (listing_answers two_matches)
  = (Returned (Some "r1"),
     {| reads := reads (listing_answers two_matches);
        echoes := echoes (listing_answers two_matches);
        listings := [];
        edits := edits (listing_answers two_matches) |},
     [List_records (YStr "ops@example.com") (YStr "k3y") (YStr "z0")
                   (YStr "a.example.com") two_matches;
      Log INFO (Found_record_ID_for (YStr "a.example.com") "r1")]).
Proof.
  apply (get_record_id_first_match
           (YStr "ops@example.com") (YStr "k3y") (YStr "z0") (YStr "a.example.com")
           (listing_answers two_matches) _ _
           (one_record "r1" "a.example.com" "198.51.100.1")
           [one_record "r2" "a.example.com" "198.51.100.2"]);
    reflexivity.
Defined.

Lemma no_address_no_provider_call_witness :
  provider_calls (trace_of (run_updater bad_status)) = [].
Proof.
  refine (proj2 (no_address_no_provider_call bad_status _ _ _ None _ _ _ _));
    reflexivity.
Defined.

Lemma records_located_then_written_in_order_witness :
  locate_attempts (trace_of (run_updater two_failures))
  = [YStr "a.example.com"; YStr "c.example.com"; YStr "b.example.com"].
Proof.
  refine (proj2 (records_located_then_written_in_order
                   two_failures _ _ _
                   {| email := YStr "ops@example.com"; api_key := YStr "k3y";
                      zone_id := YStr "z0";
                      record_names := [YStr "a.example.com"; YStr "c.example.com";
                                       YStr "b.example.com"] |}
                   (Some "203.0.113.7") _ "203.0.113.7" _ _ _ _));
    reflexivity.
Defined.

Lemma failures_do_not_stop_the_cycle_witness :
  exists w3 t_before t_n t_after o,
    run_updater two_failures =
    (Returned tt, w3,
     Log INFO Starting_DDNS_update_process
     :: Open "secrets.yaml"
             (Returned (secrets_yaml ["a.example.com"; "c.example.com"; "b.example.com"]
                                     cron_5min))
     :: [Get "https://ipinfo.io/ip" (ok_response "203.0.113.7")]
     ++ Log INFO (Current_public_IP "203.0.113.7")
     :: t_before ++ t_n ++ t_after ++ [Log INFO DDNS_update_process_completed]) /\
    locate_attempts t_before = [] /\
    locate_attempts t_n = [YStr "a.example.com"] /\
    outcomes t_n = [(YStr "a.example.com", o)] /\
    ((exists r,
         truthy (found r) = None /\
         provider_calls t_n =
         [List_records (email three_names_config) (api_key three_names_config)
                       (zone_id three_names_config) (YStr "a.example.com") r] /\
         o = lookup_failed) \/
     (exists r rid r2,
         truthy (found r) = Some rid /\
         provider_calls t_n =
         [List_records (email three_names_config) (api_key three_names_config)
                       (zone_id three_names_config) (YStr "a.example.com") r;
          Edit_record (email three_names_config) (api_key three_names_config)
                      (zone_id three_names_config) rid "203.0.113.7" r2] /\
         o = if acknowledged r2 then updated else write_failed)) /\
    locate_attempts t_after = [YStr "c.example.com"; YStr "b.example.com"] /\
    map fst (outcomes t_after) = [YStr "c.example.com"; YStr "b.example.com"] /\
    outcomes t_after = verdicts (provider_calls t_after).
Proof.
  refine (failures_do_not_stop_the_cycle
            two_failures _ _ _ three_names_config
            (Some "203.0.113.7") _ "203.0.113.7"
            [] (YStr "a.example.com") [YStr "c.example.com"; YStr "b.example.com"]
            _ _ _ _ _);
    reflexivity.
Defined.

Lemma empty_address_never_written_witness :
  run_updater empty_body =
  (Returned tt,
   {| reads := []; echoes := []; listings := listings empty_body;
      edits := edits empty_body |},
   [Log INFO Starting_DDNS_update_process;
    Open "secrets.yaml" (Returned (secrets_yaml ["a.example.com"] cron_5min));
    Get "https://ipinfo.io/ip" (Returned {| status_code := 200; text := "" |});
    Log ERROR Failed_to_retrieve_public_IP]).
Proof.
  refine (proj1 (proj2 (empty_address_never_written empty_body)) _ _ _ _ _);
    reflexivity.
Defined.

Lemma faults_contained_once_configured_witness :
  result_of (run_updater two_failures) = Returned tt.
Proof.
  refine (proj1 (proj2 (proj2 (proj2 (faults_contained_once_configured
                                 two_failures _ _
                                 {| email := YStr "ops@example.com";
                                    api_key := YStr "k3y"; zone_id := YStr "z0";
                                    record_names := [YStr "a.example.com";
                                                     YStr "c.example.com";
                                                     YStr "b.example.com"] |}
                                 _ _)))));
    reflexivity.
Defined.

Lemma not_found_is_a_lookup_failure_witness :
  result_of (get_record_id (YStr "ops@example.com") (YStr "k3y") (YStr "z0")
                           (YStr "c.example.com") (listing_answers (page_of [])))
  = Returned None /\
  outcomes (trace_of (update_record (secrets_yaml ["c.example.com"] cron_5min)
                                    "203.0.113.7" (YStr "c.example.com")
                                    (listing_answers (page_of []))))
  = [(YStr "c.example.com", lookup_failed)].
Proof.
  refine (proj2 (not_found_is_a_lookup_failure
                   (secrets_yaml ["c.example.com"] cron_5min) example_config
                   "203.0.113.7" (YStr "c.example.com")
                   (listing_answers (page_of [])) _ (page_of []) _ _) _);
    reflexivity.
Defined.

Lemma one_address_per_cycle_witness :
  List.length (fetches (trace_of (run_updater two_failures))) = 1%nat.
Proof.
  refine (proj1 (proj2 (one_address_per_cycle two_failures)) _ _ _); reflexivity.
Defined.

Lemma configuration_read_by_every_cycle_witness :
  List.length (opens (trace_of (main 1 reconfigured))) = 2%nat.
Proof.
  refine (proj2 configuration_read_by_every_cycle 1%nat reconfigured _ _ _);
    reflexivity.
Defined.

(** ** Where the claims as first written fail *)

(** C3, as first written, fails: the file is edited after startup; the
    cycle reads it again, gets the new value, and works on the new record
    name, not on the one present at startup. *)
Lemma cycle_rereads_configuration :
  opens (trace_of (arm reconfigured))
  = [("secrets.yaml", Returned (secrets_yaml ["a.example.com"] cron_5min))] /\
  opens (trace_of (run_updater (world_of (arm reconfigured))))
  = [("secrets.yaml", Returned (secrets_yaml ["b.example.com"] cron_5min))] /\
  locate_attempts (trace_of (run_updater (world_of (arm reconfigured))))
  = [YStr "b.example.com"].
Proof. repeat split; reflexivity. Qed.

(** C4, as first written, fails: a fault of the configuration read inside a
    cycle is not caught by [read_secrets] nor by [run_updater], and leaves
    [run_updater] as an exception. *)
Lemma configuration_fault_leaves_run_updater :
  result_of (run_updater unreadable)
  = Raised (Fault "No such file or directory: secrets.yaml").
Proof. reflexivity. Qed.

(** C5, as first written, fails: an empty match set, whether the page object
    counts as true or as false, and a provider fault all make
    [get_record_id] return [None], and the cycle records the same result for
    the name in the three cases. *)
Lemma not_found_not_told_apart :
  result_of (get_record_id (YStr "ops@example.com") (YStr "k3y") (YStr "z0")
                           (YStr "c.example.com") (listing_answers (page_of [])))
  = Returned None /\
  result_of (get_record_id (YStr "ops@example.com") (YStr "k3y") (YStr "z0")
                           (YStr "c.example.com")
                           (listing_answers
                              (Returned {| page_truth := false; result := [] |})))
  = Returned None /\
  result_of (get_record_id (YStr "ops@example.com") (YStr "k3y") (YStr "z0")
                           (YStr "c.example.com")
                           (listing_answers (Raised (Fault "connection reset"))))
  = Returned None /\
  outcomes (trace_of (run_updater (listing_answers (page_of []))))
  = [(YStr "c.example.com", lookup_failed)] /\
  outcomes (trace_of (run_updater
                        (listing_answers
                           (Returned {| page_truth := false; result := [] |}))))
  = [(YStr "c.example.com", lookup_failed)] /\
  outcomes (trace_of (run_updater (listing_answers (Raised (Fault "connection reset")))))
  = [(YStr "c.example.com", lookup_failed)].
Proof. repeat split; reflexivity. Qed.

(** C6, as first written, fails: a cycle whose configuration read faults
    stops before the address lookup and fetches no address at all. *)
Lemma unreadable_cycle_fetches_nothing :
  List.length (fetches (trace_of (run_updater unreadable))) = 0%nat.
Proof. reflexivity. Qed.


(** * Further properties of the code *)

Lemma split_after_quiet {A} (P : A -> bool) (p q t1 : list A) (ev : A) (t2 : list A) :
  p ++ q = t1 ++ ev :: t2 ->
  Forall (fun a => P a = false) p ->
  P ev = true ->
  exists t1', t1 = p ++ t1'.
Proof.
  revert t1. induction p as [|a p IH]; intros t1 Heq Hquiet Hev; simpl in *.
  - now exists t1.
  - inversion Hquiet as [|? ? Ha Hp]; subst.
    destruct t1 as [|b t1]; simpl in Heq.
    + injection Heq as -> _. congruence.
    + injection Heq as <- Heq. destruct (IH t1 Heq Hp Hev) as (t1' & ->).
      now exists t1'.
Qed.

Section Further.

Context {W : Type} `{World W}.

Lemma get_record_id_usable (e k z n : yaml) :
  emits usable_edit (get_record_id e k z n).
Proof. unfold get_record_id. repeat emits_step; exact I. Qed.

Lemma update_record_usable (secrets : yaml) (ip : string) (n : yaml) :
  emits usable_edit (update_record secrets ip n).
Proof.
  unfold update_record.
  apply emits_bind; [apply emits_logger; exact I|intros _].
  apply emits_bind; [apply cloudflare_emits|intro e].
  apply emits_bind; [apply cloudflare_emits|intro k].
  apply emits_bind; [apply cloudflare_emits|intro z].
  apply emits_bind; [apply get_record_id_usable|intro record_id].
  destruct (truthy record_id) as [rid|] eqn:Hrid.
  - apply truthy_Some in Hrid. destruct Hrid as (_ & Hne).
    unfold update_dns_record.
    repeat (first [apply cloudflare_emits | emits_step]); exact I || exact Hne.
  - apply emits_logger. exact I.
Qed.

Lemma update_records_usable (secrets : yaml) (ip : string) (names : list yaml) :
  emits usable_edit (update_records secrets ip names).
Proof.
  induction names as [|n rest IH]; simpl.
  - apply emits_ret.
  - apply emits_bind; [apply update_record_usable|intros _; exact IH].
Qed.

(** X1: in no cycle, whatever the collaborators answer and whatever the
    configuration holds, is the provider asked to edit a record with an empty
    identifier: a listing whose first record has an empty [id] counts as a
    failed lookup. *)
Theorem no_edit_with_empty_identifier
        (w : W) (e k z : yaml) (ip : string) (r : outcome edit_response) :
  ~ In (Edit_record e k z "" ip r) (trace_of (run_updater w)).
Proof.
  assert (Hem : emits usable_edit (run_updater (W := W))).
  { unfold run_updater, read_secrets, retrieve_current_public_ip.
    repeat (first [apply cloudflare_emits | apply update_records_usable | emits_step]);
      exact I. }
  intro Hin. specialize (Hem w). rewrite Forall_forall in Hem.
  apply (Hem _ Hin). reflexivity.
Qed.

(** X2: in every cycle, any call to the provider comes after the read of the
    configuration and after an address lookup that was answered 200 with a
    non-empty body. *)
Theorem resolution_precedes_provider_calls
        (w : W) (t1 : trace) (ev : event) (t2 : trace) :
  trace_of (run_updater w) = t1 ++ ev :: t2 ->
  is_provider_call ev = true ->
  exists secrets resp,
    In (Open "secrets.yaml" (Returned secrets)) t1 /\
    In (Get "https://ipinfo.io/ip" (Returned resp)) t1 /\
    status_code resp = 200%Z /\ text resp <> "".
Proof.
  intros Htr Hev. pose proof (run_updater_anatomy w) as Ha.
  destruct (safe_load "secrets.yaml" w) as [[secrets|e] w1].
  - destruct Ha as (rest & Ht & Hrest). simpl in Hrest.
    set (r := fst (requests_get "https://ipinfo.io/ip" w1)) in *.
    rewrite Ht in Htr.
    assert (Hquiet : Forall (fun a => is_provider_call a = false)
                            ([Log INFO Starting_DDNS_update_process;
                              Open "secrets.yaml" (Returned secrets);
                              Get "https://ipinfo.io/ip" r] ++ resolver_log r)).
    { repeat constructor. destruct r; repeat constructor. }
    destruct (truthy (address_of r)) as [ip|] eqn:Hip.
    + destruct (split_after_quiet is_provider_call
                  ([Log INFO Starting_DDNS_update_process;
                    Open "secrets.yaml" (Returned secrets);
                    Get "https://ipinfo.io/ip" r] ++ resolver_log r)
                  rest t1 ev t2) as (t1' & ->);
        [exact Htr | exact Hquiet | exact Hev |].
      apply truthy_Some in Hip. destruct Hip as (Haddr & Hne).
      apply address_of_Some in Haddr. destruct Haddr as (resp & Hr & Hst & Htx).
      exists secrets, resp. rewrite <- Hr. subst ip.
      repeat split; auto; apply in_or_app; left; simpl; auto.
    + subst rest. exfalso.
      assert (Hall : Forall (fun a => is_provider_call a = false)
                            (t1 ++ ev :: t2)).
      { rewrite <- Htr. simpl. repeat constructor.
        apply Forall_app. split; [destruct r; repeat constructor|repeat constructor]. }
      rewrite Forall_forall in Hall.
      specialize (Hall ev (in_elt ev t1 t2)). congruence.
  - rewrite Ha in Htr. exfalso.
    assert (Hall : Forall (fun a => is_provider_call a = false) (t1 ++ ev :: t2))
      by (rewrite <- Htr; repeat constructor).
    rewrite Forall_forall in Hall.
    specialize (Hall ev (in_elt ev t1 t2)). congruence.
Qed.

End Further.

Lemma resolver_log_outcomes (r : outcome response) : outcomes (resolver_log r) = [].
Proof. now destruct r. Qed.

Lemma in_order_length (cfg : provider_config) (ip : string) (names : list yaml)
      (calls : trace) :
  in_order cfg ip names calls ->
  (List.length names <= List.length calls <= 2 * List.length names)%nat.
Proof. induction 1; simpl; lia. Qed.

Section Results.

Context {W : Type} `{World W}.

(** The provider calls and the result lines of a cycle that resolved an
    address are those of its loop. *)
Lemma run_updater_resolved_loop (w w1 w2 : W) (secrets : yaml) (cfg : provider_config)
      (v : option string) (t : trace) (ip : string) :
  safe_load "secrets.yaml" w = (Returned secrets, w1) ->
  provider_section secrets = Some cfg ->
  retrieve_current_public_ip w1 = (Returned v, w2, t) ->
  truthy v = Some ip ->
  provider_calls (trace_of (run_updater w))
  = provider_calls (snd (records_run cfg ip (record_names cfg) w2)) /\
  outcomes (trace_of (run_updater w))
  = outcomes (snd (records_run cfg ip (record_names cfg) w2)).
Proof.
  intros Hs Hcfg Hr Hv. rewrite (run_updater_resolved _ _ _ _ _ _ _ _ Hs Hcfg Hr Hv).
  rewrite retrieve_current_public_ip_eq in Hr.
  destruct (requests_get _ w1) as [r w']. injection Hr as _ _ <-.
  destruct (resolver_log_silent r) as (Hp & _).
  pose proof (resolver_log_outcomes r) as Ho.
  unfold trace_of, provider_calls, outcomes in *. simpl.
  rewrite !filter_app, !flat_map_app, Hp, Ho. simpl.
  rewrite !filter_app, !flat_map_app. simpl. now rewrite !app_nil_r.
Qed.

(** X3: in a cycle that resolved an address, the result lines logged for the
    records are exactly what the provider's answers call for, record by
    record: lookup-failed when the listing gave no usable identifier,
    updated when the edit that followed was acknowledged, write-failed when
    it was not. *)
Theorem outcomes_follow_provider_answers
        (w w1 w2 : W) (secrets : yaml) (cfg : provider_config)
        (v : option string) (t : trace) (ip : string) :
  safe_load "secrets.yaml" w = (Returned secrets, w1) ->
  provider_section secrets = Some cfg ->
  retrieve_current_public_ip w1 = (Returned v, w2, t) ->
  truthy v = Some ip ->
  outcomes (trace_of (run_updater w))
  = verdicts (provider_calls (trace_of (run_updater w))).
Proof.
  intros Hs Hcfg Hr Hv.
  destruct (run_updater_resolved_loop _ _ _ _ _ _ _ _ Hs Hcfg Hr Hv) as (-> & ->).
  apply records_run_verdicts.
Qed.

(** X4: a cycle that resolved an address makes at least one and at most two
    provider calls per configured record name. *)
Theorem provider_calls_bounded
        (w w1 w2 : W) (secrets : yaml) (cfg : provider_config)
        (v : option string) (t : trace) (ip : string) :
  safe_load "secrets.yaml" w = (Returned secrets, w1) ->
  provider_section secrets = Some cfg ->
  retrieve_current_public_ip w1 = (Returned v, w2, t) ->
  truthy v = Some ip ->
  (List.length (record_names cfg)
   <= List.length (provider_calls (trace_of (run_updater w)))
   <= 2 * List.length (record_names cfg))%nat.
Proof.
  intros Hs Hcfg Hr Hv.
  destruct (run_updater_resolved_loop _ _ _ _ _ _ _ _ Hs Hcfg Hr Hv) as (-> & _).
  apply (in_order_length cfg ip). apply records_run_in_order.
Qed.

(** X5: with an empty list of record names the cycle resolves the address,
    logs it, and completes without any provider call; the credentials are
    never looked up, so they may even be missing. *)
Theorem empty_record_list_cycle
        (w w1 w2 : W) (secrets : yaml) (v : option string) (t : trace) (ip : string) :
  safe_load "secrets.yaml" w = (Returned secrets, w1) ->
  configured_names secrets = Returned [] ->
  retrieve_current_public_ip w1 = (Returned v, w2, t) ->
  truthy v = Some ip ->
  run_updater w =
  (Returned tt, w2,
   Log INFO Starting_DDNS_update_process
   :: Open "secrets.yaml" (Returned secrets)
   :: t ++ [Log INFO (Current_public_IP ip); Log INFO DDNS_update_process_completed]).
Proof.
  intros Hs Hnames Hr Hv. unfold configured_names in Hnames.
  destruct (getitem secrets "cloudflare") as [cf|] eqn:Hcf; [|discriminate].
  destruct (getitem cf "record_names") as [rn|] eqn:Hrn; [|discriminate].
  unfold run_updater, bind, logger, read_secrets, call_open.
  rewrite Hs. cbv beta iota. rewrite Hr. cbv beta iota. rewrite Hv.
  unfold cloudflare, bind, lift. rewrite Hcf, Hrn, Hnames. reflexivity.
Qed.

(** X6: when the configuration has no usable list of record names (no
    [cloudflare] section, no [record_names] in it, or a value that cannot be
    iterated), a cycle that resolved an address raises the lookup's
    exception right after logging the address; no record is processed. *)
Theorem missing_record_names_raise
        (w w1 w2 : W) (secrets : yaml) (e : exn)
        (v : option string) (t : trace) (ip : string) :
  safe_load "secrets.yaml" w = (Returned secrets, w1) ->
  configured_names secrets = Raised e ->
  retrieve_current_public_ip w1 = (Returned v, w2, t) ->
  truthy v = Some ip ->
  run_updater w =
  (Raised e, w2,
   Log INFO Starting_DDNS_update_process
   :: Open "secrets.yaml" (Returned secrets)
   :: t ++ [Log INFO (Current_public_IP ip)]).
Proof.
  intros Hs Hnames Hr Hv. unfold configured_names in Hnames.
  unfold run_updater, bind, logger, read_secrets, call_open.
  rewrite Hs. cbv beta iota. rewrite Hr. cbv beta iota. rewrite Hv.
  unfold cloudflare, bind, lift.
  destruct (getitem secrets "cloudflare") as [cf|] eqn:Hcf;
    [|injection Hnames as ->; reflexivity].
  destruct (getitem cf "record_names") as [rn|] eqn:Hrn;
    [|injection Hnames as ->; reflexivity].
  rewrite Hnames. reflexivity.
Qed.

(** X7: when a credential or the zone is missing from the configuration and
    there is at least one record name, a cycle that resolved an address
    raises the lookup's exception at the first record, after the line
    "Processing record", before any provider call; the remaining names are
    not processed. *)
Theorem missing_credential_stops_at_first_record
        (w w1 w2 : W) (secrets : yaml) (n : yaml) (others : list yaml) (e : exn)
        (v : option string) (t : trace) (ip : string) :
  safe_load "secrets.yaml" w = (Returned secrets, w1) ->
  configured_names secrets = Returned (n :: others) ->
  credentials secrets = Raised e ->
  retrieve_current_public_ip w1 = (Returned v, w2, t) ->
  truthy v = Some ip ->
  run_updater w =
  (Raised e, w2,
   Log INFO Starting_DDNS_update_process
   :: Open "secrets.yaml" (Returned secrets)
   :: t ++ [Log INFO (Current_public_IP ip); Log INFO (Processing_record n)]).
Proof.
  intros Hs Hnames Hcred Hr Hv. unfold configured_names in Hnames.
  unfold credentials in Hcred.
  destruct (getitem secrets "cloudflare") as [cf|] eqn:Hcf; [|discriminate].
  destruct (getitem cf "record_names") as [rn|] eqn:Hrn; [|discriminate].
  unfold run_updater, bind, logger, read_secrets, call_open.
  rewrite Hs. cbv beta iota. rewrite Hr. cbv beta iota. rewrite Hv.
  unfold cloudflare, bind, lift. rewrite Hcf, Hrn, Hnames. cbv beta iota.
  simpl update_records. unfold update_record, bind, logger, cloudflare, bind, lift.
  rewrite Hcf.
  destruct (getitem cf "email") as [em|] eqn:He;
    [|injection Hcred as ->; reflexivity].
  destruct (getitem cf "api_key") as [k|] eqn:Hk;
    [|injection Hcred as ->; reflexivity].
  destruct (getitem cf "zone_id") as [z|] eqn:Hz;
    [discriminate|injection Hcred as ->; reflexivity].
Qed.

(** X8: a cycle over a configuration without complete provider section
    (credentials, zone and an iterable list of names) never reaches the
    provider: its trace holds no listing and no edit. *)
Theorem incomplete_configuration_no_provider_call
        (w w1 : W) (secrets : yaml) :
  safe_load "secrets.yaml" w = (Returned secrets, w1) ->
  provider_section secrets = None ->
  provider_calls (trace_of (run_updater w)) = [].
Proof.
  intros Hs Hnone.
  unfold run_updater, bind, logger, read_secrets, call_open. rewrite Hs. cbv beta iota.
  rewrite retrieve_current_public_ip_eq.
  destruct (requests_get _ w1) as [r w2]. cbv beta iota.
  destruct (resolver_log_silent r) as (Hp & _).
  assert (Hquiet : forall tail,
             provider_calls tail = [] ->
             provider_calls
               (Log INFO Starting_DDNS_update_process
                :: Open "secrets.yaml" (Returned secrets)
                :: (Get "https://ipinfo.io/ip" r :: resolver_log r) ++ tail) = []).
  { intros tail Htail. unfold provider_calls in *. simpl.
    now rewrite filter_app, Hp, Htail. }
  destruct (truthy (address_of r)) as [ip|]; [|now apply Hquiet].
  unfold cloudflare, bind, lift.
  destruct (getitem secrets "cloudflare") as [cf|] eqn:Hcf; [|now apply Hquiet].
  destruct (getitem cf "record_names") as [rn|] eqn:Hrn; [|now apply Hquiet].
  destruct (iter rn) as [names|] eqn:Hnames; [|now apply Hquiet].
  destruct names as [|n rest]; [now apply Hquiet|].
  simpl update_records. unfold update_record, bind, logger, cloudflare, bind, lift.
  rewrite Hcf.
  destruct (getitem cf "email") as [e|] eqn:He; [|now apply Hquiet].
  destruct (getitem cf "api_key") as [k|] eqn:Hk; [|now apply Hquiet].
  destruct (getitem cf "zone_id") as [z|] eqn:Hz; [|now apply Hquiet].
  exfalso. unfold provider_section in Hnone.
  rewrite Hcf in Hnone. simpl in Hnone.
  rewrite He, Hk, Hz, Hrn in Hnone. simpl in Hnone.
  rewrite Hnames in Hnone. discriminate.
Qed.

(** X9: when startup fails (the file cannot be loaded, [schedule] or [cron]
    is missing, or the cron expression is refused), [main] raises the same
    exception; all it has done is the one read of the configuration file: no
    log line, no address lookup, no provider call, no cycle. *)
Theorem startup_failure_fires_no_cycle
        (n : nat) (w w1 : W) (e : exn) (t : trace) :
  arm w = (Raised e, w1, t) ->
  main n w = (Raised e, w1, t) /\
  t = [Open "secrets.yaml" (fst (safe_load "secrets.yaml" w))].
Proof.
  intro Harm. split; [unfold main, bind; now rewrite Harm|].
  revert Harm. unfold arm, schedule_cron, bind, lift, logger, read_secrets, call_open.
  destruct (safe_load "secrets.yaml" w) as [[secrets|ex] w']; cbv beta iota;
    [|now intros [= _ _ <-]].
  destruct (getitem secrets "schedule") as [sch|]; cbv beta iota;
    [|now intros [= _ _ <-]].
  destruct (getitem sch "cron") as [cron|]; cbv beta iota;
    [|now intros [= _ _ <-]].
  destruct (from_crontab cron) as [[]|]; cbv beta iota;
    [discriminate|now intros [= _ _ <-]].
Qed.

End Results.


(** ** Further properties on the storing provider *)

Lemma rewritten_overwrite (z : yaml) (rid ip : string) (s : store) :
  Forall2 (rewritten ip) s (overwrite z rid ip s).
Proof.
  induction s as [|r s IH]; simpl; constructor; [|exact IH].
  destruct (targets z rid r); [now right|now left].
Qed.

Lemma rewritten_refl (ip : string) (s : store) : Forall2 (rewritten ip) s s.
Proof. induction s; constructor; [now left|assumption]. Qed.

Lemma rewritten_trans (ip : string) (s t u : store) :
  Forall2 (rewritten ip) s t -> Forall2 (rewritten ip) t u ->
  Forall2 (rewritten ip) s u.
Proof.
  intros Hst. revert u. induction Hst as [|r r' s t Hr _ IH]; intros u Htu.
  - inversion Htu; constructor.
  - inversion Htu as [|? r'' ? u' Hr' Htu']; subst.
    constructor; [|now apply IH].
    destruct Hr as [-> | ->], Hr' as [-> | ->]; unfold rewritten; auto.
Qed.

Section Stored.

Variable echo : outcome response.
Variable list_fault : yaml -> yaml -> yaml -> yaml -> option exn.
Variable truth_of_page : nat -> bool.
Variable edit_answer : yaml -> yaml -> yaml -> string -> string -> outcome edit_response.

(** A listing that gives an identifier gives that of a stored record of the
    zone, so an edit of it has a target. *)
Lemma found_has_target (e k z n : yaml) (rid : string) (s : store) :
  found (fst (store_list list_fault truth_of_page e k z n s)) = Some rid ->
  existsb (targets z rid) s = true.
Proof.
  unfold store_list. destruct (list_fault e k z n); [discriminate|]. simpl.
  destruct (truth_of_page _); [|discriminate].
  destruct (filter (matching z n) s) as [|r0 l] eqn:Hf; [discriminate|].
  intros [= <-].
  assert (Hin : In r0 (filter (matching z n) s)) by (rewrite Hf; now left).
  apply filter_In in Hin. destruct Hin as (Hin & Hm).
  apply existsb_exists. exists r0. split; [exact Hin|].
  unfold matching in Hm. apply andb_prop in Hm. destruct Hm as (Hz & _).
  unfold targets. now rewrite Hz, String.eqb_refl.
Qed.

Lemma records_run_rewritten (config_file : outcome yaml) (cfg : provider_config)
      (ip : string) (names : list yaml) (s : store) :
  Forall2 (rewritten ip) s
          (fst (@records_run store
                  (provider config_file echo list_fault truth_of_page edit_answer)
                  cfg ip names s)).
Proof.
  revert s. induction names as [|n rest IH]; intro s; simpl.
  - apply rewritten_refl.
  - pose proof (record_run_same_keys config_file echo list_fault truth_of_page
                  edit_answer cfg ip n s s (same_keys_refl s)) as Hstep.
    destruct (@record_run store _ cfg ip n s) as [s1 t1]. simpl in Hstep.
    specialize (IH s1).
    destruct (@records_run store _ cfg ip rest s1) as [s2 t2]. simpl in *.
    destruct Hstep as [(-> & _)|(z & rid & -> & _)]; [exact IH|].
    eapply rewritten_trans; [apply rewritten_overwrite|exact IH].
Qed.

Lemma records_run_reaches (config_file : outcome yaml) (cfg : provider_config)
      (ip : string) (n : yaml) (rid : string) (resp : edit_response)
      (names : list yaml) (s : store) :
  In n names ->
  truthy (found (fst (store_list list_fault truth_of_page
                                 (email cfg) (api_key cfg) (zone_id cfg) n s)))
  = Some rid ->
  edit_answer (email cfg) (api_key cfg) (zone_id cfg) rid ip = Returned resp ->
  settled (zone_id cfg) rid ip
          (fst (@records_run store
                  (provider config_file echo list_fault truth_of_page edit_answer)
                  cfg ip names s)).
Proof.
  intros Hin Hfound Hedit. revert s Hfound.
  induction names as [|m rest IH]; intros s Hfound; [contradiction|]. simpl.
  pose proof (record_run_same_keys config_file echo list_fault truth_of_page
                edit_answer cfg ip m s s (same_keys_refl s)) as Hstep.
  pose proof (record_run_store config_file echo list_fault truth_of_page
                edit_answer cfg ip m s) as Hm.
  destruct (@record_run store _ cfg ip m s) as [s1 t1]. simpl in Hstep, Hm.
  assert (Hkeys : same_keys s s1).
  { destruct Hstep as [(-> & _)|(z & rid' & -> & _)];
      [apply same_keys_refl|apply same_keys_overwrite]. }
  destruct Hin as [->|Hin].
  - assert (Hs1 : s1 = overwrite (zone_id cfg) rid ip s).
    { rewrite Hm, Hfound. unfold store_edit. rewrite Hedit.
      apply truthy_Some in Hfound. destruct Hfound as (Hf & _).
      now rewrite (found_has_target _ _ _ _ _ _ Hf). }
    pose proof (records_run_settled config_file echo list_fault truth_of_page
                  edit_answer cfg ip rest (zone_id cfg) rid s1) as Hkeep.
    destruct (@records_run store _ cfg ip rest s1) as [s2 t2]. simpl in *.
    apply Hkeep. rewrite Hs1. apply settled_overwrite.
  - specialize (IH Hin s1).
    destruct (@records_run store _ cfg ip rest s1) as [s2 t2]. simpl in *.
    apply IH.
    now rewrite <- (found_same_keys list_fault truth_of_page _ _ _ n _ _ Hkeys).
Qed.

End Stored.

(** X10: on the storing provider, when [update_dns_record] returns [True]
    the record exists in the zone and the store now holds the new address in
    it: success is only reported for an edit that was carried out. *)
Theorem reported_success_means_written
        (config_file : outcome yaml) (echo : outcome response)
        (list_fault : yaml -> yaml -> yaml -> yaml -> option exn)
        (truth_of_page : nat -> bool)
        (edit_answer : yaml -> yaml -> yaml -> string -> string -> outcome edit_response)
        (e k z : yaml) (rid ip : string) (s : store) :
  result_of (@update_dns_record store
               (provider config_file echo list_fault truth_of_page edit_answer)
               e k z rid ip s) = Returned true ->
  existsb (targets z rid) s = true /\
  world_of (@update_dns_record store
              (provider config_file echo list_fault truth_of_page edit_answer)
              e k z rid ip s) = overwrite z rid ip s /\
  settled z rid ip
          (world_of (@update_dns_record store
                       (provider config_file echo list_fault truth_of_page edit_answer)
                       e k z rid ip s)).
Proof.
  rewrite update_dns_record_eq. simpl records_edit. unfold store_edit.
  destruct (edit_answer e k z rid ip) as [resp|ex]; [|discriminate].
  destruct (existsb (targets z rid) s); [|discriminate].
  intros _. unfold world_of. simpl. repeat split. apply settled_overwrite.
Qed.

(** X11: on the storing provider, a cycle adds, removes, renames and
    re-identifies no record, whatever goes wrong: after the cycle the store
    holds the same records in the same order, each either untouched or with
    the address the echo service gave as its content. *)
Theorem cycle_only_rewrites_contents
        (config_file : outcome yaml) (echo : outcome response)
        (list_fault : yaml -> yaml -> yaml -> yaml -> option exn)
        (truth_of_page : nat -> bool)
        (edit_answer : yaml -> yaml -> yaml -> string -> string -> outcome edit_response)
        (s : store) :
  Forall2 (fun r r' =>
             r' = r \/
             exists ip, truthy (address_of echo) = Some ip /\ r' = set_content ip r)
          s
          (world_of (@run_updater store
                       (provider config_file echo list_fault truth_of_page edit_answer)
                       s)).
Proof.
  assert (Hsame : forall t : store,
             Forall2 (fun r r' =>
                        r' = r \/
                        exists ip, truthy (address_of echo) = Some ip /\
                                   r' = set_content ip r) t t)
    by (induction t; constructor; auto).
  assert (Hr : @retrieve_current_public_ip store
                 (provider config_file echo list_fault truth_of_page edit_answer) s
               = (Returned (address_of echo), s,
                  Get "https://ipinfo.io/ip" echo :: resolver_log echo))
    by now rewrite retrieve_current_public_ip_eq.
  assert (Hl : forall c, config_file = c ->
               @safe_load store
                 (provider config_file echo list_fault truth_of_page edit_answer)
                 "secrets.yaml" s = (c, s))
    by (intros c <-; reflexivity).
  assert (Hcase : (exists secrets, config_file = Returned secrets) \/
                  (exists e, config_file = Raised e))
    by (destruct config_file; eauto).
  destruct Hcase as [(secrets & Hcf)|(e & Hcf)].
  - destruct (truthy (address_of echo)) as [ip|] eqn:Hip.
    + destruct (provider_section secrets) as [cfg|] eqn:Hcfg.
      * rewrite (@run_updater_resolved store _ s s s secrets cfg _ _ ip
                   (Hl _ Hcf) Hcfg Hr Hip).
        unfold world_of. simpl.
        eapply Forall2_impl; [|apply records_run_rewritten].
        intros r r' [-> | ->]; [now left|right]. now exists ip.
      * rewrite (@run_updater_malformed store _ s s secrets (Hl _ Hcf) Hcfg), Hr.
        apply Hsame.
    + rewrite (@run_updater_unresolved store _ s s s secrets _ _ (Hl _ Hcf) Hr Hip).
      apply Hsame.
  - rewrite (@run_updater_unreadable store _ s s e (Hl _ Hcf)). apply Hsame.
Qed.

(** X12: on the storing provider, take a cycle that resolved address A and a
    configured name whose listing gives a usable identifier and whose edit
    the provider answers without fault.  At the end of the cycle the record
    with that identifier exists and holds A, whatever happened to the other
    names. *)
Theorem accepted_edit_holds_at_end_of_cycle
        (secrets : yaml) (echo : outcome response)
        (list_fault : yaml -> yaml -> yaml -> yaml -> option exn)
        (truth_of_page : nat -> bool)
        (edit_answer : yaml -> yaml -> yaml -> string -> string -> outcome edit_response)
        (cfg : provider_config) (ip : string) (n : yaml) (rid : string)
        (resp : edit_response) (s : store) :
  provider_section secrets = Some cfg ->
  truthy (address_of echo) = Some ip ->
  In n (record_names cfg) ->
  truthy (found (fst (store_list list_fault truth_of_page
                                 (email cfg) (api_key cfg) (zone_id cfg) n s)))
  = Some rid ->
  edit_answer (email cfg) (api_key cfg) (zone_id cfg) rid ip = Returned resp ->
  settled (zone_id cfg) rid ip
          (world_of (@run_updater store
                       (provider (Returned secrets) echo list_fault truth_of_page
                                 edit_answer) s)) /\
  existsb (targets (zone_id cfg) rid)
          (world_of (@run_updater store
                       (provider (Returned secrets) echo list_fault truth_of_page
                                 edit_answer) s)) = true.
Proof.
  intros Hcfg Hip Hin Hfound Hedit.
  assert (Hr : @retrieve_current_public_ip store
                 (provider (Returned secrets) echo list_fault truth_of_page edit_answer) s
               = (Returned (address_of echo), s,
                  Get "https://ipinfo.io/ip" echo :: resolver_log echo))
    by now rewrite retrieve_current_public_ip_eq.
  assert (Hl : @safe_load store
                 (provider (Returned secrets) echo list_fault truth_of_page edit_answer)
                 "secrets.yaml" s = (Returned secrets, s)) by reflexivity.
  rewrite (@run_updater_resolved store _ s s s secrets cfg _ _ ip Hl Hcfg Hr Hip).
  unfold world_of. simpl. split.
  - eapply records_run_reaches; eauto.
  - rewrite <- (same_keys_targets _ _ _ _
                  (records_run_keys (Returned secrets) echo list_fault truth_of_page
                                    edit_answer cfg ip (record_names cfg) s)).
    apply truthy_Some in Hfound. destruct Hfound as (Hf & _).
    eapply found_has_target; eauto.
Qed.


(** ** The further properties at concrete inputs *)

Lemma resolution_precedes_provider_calls_witness :
  exists secrets resp,
    In (Open "secrets.yaml" (Returned secrets))
       [Log INFO Starting_DDNS_update_process;
        Open "secrets.yaml" (Returned (secrets_yaml ["a.example.com"] cron_5min));
        Get "https://ipinfo.io/ip" (ok_response "203.0.113.7");
        Log INFO (Current_public_IP "203.0.113.7");
        Log INFO (Processing_record (YStr "a.example.com"))] /\
    In (Get "https://ipinfo.io/ip" (Returned resp))
       [Log INFO Starting_DDNS_update_process;
        Open "secrets.yaml" (Returned (secrets_yaml ["a.example.com"] cron_5min));
        Get "https://ipinfo.io/ip" (ok_response "203.0.113.7");
        Log INFO (Current_public_IP "203.0.113.7");
        Log INFO (Processing_record (YStr "a.example.com"))] /\
    status_code resp = 200%Z /\ text resp <> "".
Proof.
  refine (resolution_precedes_provider_calls
            empty_identifier _
            (List_records (YStr "ops@example.com") (YStr "k3y") (YStr "z0")
                          (YStr "a.example.com")
                          (page_of [one_record "" "a.example.com" "198.51.100.1"]))
            [Log INFO (Found_record_ID_for (YStr "a.example.com") "");
             Log WARNING (Failed_to_find_record_ID_for (YStr "a.example.com"));
             Log INFO DDNS_update_process_completed]
            _ _);
    reflexivity.
Defined.

Lemma outcomes_follow_provider_answers_witness :
  outcomes (trace_of (run_updater two_failures))
  = verdicts (provider_calls (trace_of (run_updater two_failures))).
Proof.
  refine (outcomes_follow_provider_answers
            two_failures _ _ _ three_names_config (Some "203.0.113.7") _ "203.0.113.7"
            _ _ _ _);
    reflexivity.
Defined.

Lemma provider_calls_bounded_witness :
  (List.length (record_names three_names_config)
   <= List.length (provider_calls (trace_of (run_updater two_failures)))
   <= 2 * List.length (record_names three_names_config))%nat.
Proof.
  refine (provider_calls_bounded
            two_failures _ _ _ three_names_config (Some "203.0.113.7") _ "203.0.113.7"
            _ _ _ _);
    reflexivity.
Defined.

Lemma empty_record_list_cycle_witness :
  trace_of (run_updater (healthy (secrets_yaml [] cron_5min)))
  = [Log INFO Starting_DDNS_update_process;
     Open "secrets.yaml" (Returned (secrets_yaml [] cron_5min));
     Get "https://ipinfo.io/ip" (ok_response "203.0.113.7");
     Log INFO (Current_public_IP "203.0.113.7");
     Log INFO DDNS_update_process_completed].
Proof.
  refine (f_equal (fun run => trace_of run)
                  (empty_record_list_cycle
                     (healthy (secrets_yaml [] cron_5min)) _ _
                     (secrets_yaml [] cron_5min) (Some "203.0.113.7")
                     [Get "https://ipinfo.io/ip" (ok_response "203.0.113.7")]
                     "203.0.113.7" _ _ _ _));
    reflexivity.
Defined.

Lemma missing_record_names_raise_witness :
  result_of (run_updater (healthy secrets_without_provider))
  = Raised (KeyError "cloudflare").
Proof.
  refine (f_equal (fun run => result_of run)
                  (missing_record_names_raise
                     (healthy secrets_without_provider) _ _
                     secrets_without_provider (KeyError "cloudflare")
                     (Some "203.0.113.7")
                     [Get "https://ipinfo.io/ip" (ok_response "203.0.113.7")]
                     "203.0.113.7" _ _ _ _));
    reflexivity.
Defined.

Lemma missing_credential_stops_at_first_record_witness :
  result_of (run_updater (healthy secrets_without_api_key))
  = Raised (KeyError "api_key").
Proof.
  refine (f_equal (fun run => result_of run)
                  (missing_credential_stops_at_first_record
                     (healthy secrets_without_api_key) _ _
                     secrets_without_api_key (YStr "a.example.com")
                     [YStr "b.example.com"] (KeyError "api_key")
                     (Some "203.0.113.7")
                     [Get "https://ipinfo.io/ip" (ok_response "203.0.113.7")]
                     "203.0.113.7" _ _ _ _ _));
    reflexivity.
Defined.

Lemma incomplete_configuration_no_provider_call_witness :
  provider_calls (trace_of (run_updater (healthy secrets_without_api_key))) = [].
Proof.
  refine (incomplete_configuration_no_provider_call
            (healthy secrets_without_api_key) _ secrets_without_api_key _ _);
    reflexivity.
Defined.

Lemma startup_failure_fires_no_cycle_witness :
  main 3 (healthy secrets_without_schedule)
  = (Raised (KeyError "schedule"),
     {| reads := [Returned secrets_without_schedule];
        echoes := echoes (healthy secrets_without_schedule);
        listings := listings (healthy secrets_without_schedule);
        edits := edits (healthy secrets_without_schedule) |},
     [Open "secrets.yaml" (Returned secrets_without_schedule)]).
Proof.
  refine (proj1 (startup_failure_fires_no_cycle
                   3 (healthy secrets_without_schedule) _ _ _ _));
    reflexivity.
Defined.

Lemma reported_success_means_written_witness :
  world_of (@update_dns_record store scenario_A_provider
              (YStr "ops@example.com") (YStr "k3y") (YStr "z0") "ra" "203.0.113.7"
              stale_store)
  = overwrite (YStr "z0") "ra" "203.0.113.7" stale_store.
Proof.
  refine (proj1 (proj2 (reported_success_means_written
                          (Returned (secrets_yaml ["a.example.com"; "b.example.com"]
                                                  cron_5min))
                          (ok_response "203.0.113.7")
                          (fun _ _ _ _ => None) (fun _ => true)
                          (fun _ _ _ _ _ => edit_ok)
                          (YStr "ops@example.com") (YStr "k3y") (YStr "z0")
                          "ra" "203.0.113.7" stale_store _)));
    reflexivity.
Defined.

Lemma accepted_edit_holds_at_end_of_cycle_witness :
  settled (YStr "z0") "rb" "203.0.113.7"
          (world_of (@run_updater store scenario_A_provider stale_store)) /\
  existsb (targets (YStr "z0") "rb")
          (world_of (@run_updater store scenario_A_provider stale_store)) = true.
Proof.
  refine (accepted_edit_holds_at_end_of_cycle
            (secrets_yaml ["a.example.com"; "b.example.com"] cron_5min)
            (ok_response "203.0.113.7")
            (fun _ _ _ _ => None) (fun _ => true) (fun _ _ _ _ _ => edit_ok)
            scenario_A_config "203.0.113.7" (YStr "b.example.com") "rb"
            {| response_truth := true |} stale_store _ _ _ _ _);
    try reflexivity.
  simpl. auto.
Defined.


(** ** How a cycle ends *)

Lemma ends_completed_bind {W A} (c : M W A) (k : A -> M W unit) :
  emits not_final c ->
  (forall a w, ends_completed (k a w)) ->
  forall w, ends_completed (bind c k w).
Proof.
  intros Hc Hk w. unfold bind. specialize (Hc w).
  destruct (c w) as [[[a|e] w1] t1]; unfold trace_of in Hc; simpl in Hc.
  - specialize (Hk a w1). destruct (k a w1) as [[[u|e] w2] t2];
      unfold ends_completed, result_of, trace_of in *; simpl in *.
    + destruct Hk as (t & Ht & ->). exists (t1 ++ t). split.
      * apply Forall_app. now split.
      * now rewrite app_assoc.
    + apply Forall_app. now split.
  - exact Hc.
Qed.

Section Ending.

Context {W : Type} `{World W}.

Lemma update_records_not_final (secrets : yaml) (ip : string) (names : list yaml) :
  emits not_final (update_records secrets ip names).
Proof.
  induction names as [|n rest IH]; simpl.
  - apply emits_ret.
  - apply emits_bind; [|intros _; exact IH].
    unfold update_record, get_record_id, update_dns_record.
    repeat (first [apply cloudflare_emits | emits_step]); exact I.
Qed.

(** X13: the last line of a cycle tells how it ended.  A cycle that returns
    ends either on "DDNS update process completed" or on "Failed to retrieve
    public IP", and neither line occurs anywhere before the last; a cycle
    that raises logs neither. *)
Theorem last_line_tells_the_ending (w : W) :
  match result_of (run_updater w) with
  | Returned _ =>
      exists t,
        Forall not_final t /\
        (trace_of (run_updater w) = t ++ [Log INFO DDNS_update_process_completed] \/
         trace_of (run_updater w) = t ++ [Log ERROR Failed_to_retrieve_public_IP])
  | Raised _ => Forall not_final (trace_of (run_updater w))
  end.
Proof.
  destruct (run_updater w) as [[res w'] tr] eqn:Hrun.
  unfold result_of, trace_of. simpl. revert Hrun.
  unfold run_updater, bind at 1 2, logger at 1, read_secrets, call_open.
  destruct (safe_load "secrets.yaml" w) as [[secrets|e] w1]; cbv beta iota;
    [|intros [= <- _ <-]; repeat constructor].
  unfold bind at 1. rewrite retrieve_current_public_ip_eq.
  destruct (requests_get _ w1) as [r w2]. cbv beta iota.
  assert (Hhead : Forall not_final
                         (Log INFO Starting_DDNS_update_process
                          :: Open "secrets.yaml" (Returned secrets)
                          :: Get "https://ipinfo.io/ip" r :: resolver_log r)).
  { repeat constructor. destruct r; repeat constructor. }
  destruct (truthy (address_of r)) as [ip|].
  - match goal with
    | |- context [match ?c w2 with _ => _ end] =>
        assert (Hend : ends_completed (c w2))
    end.
    { apply ends_completed_bind; [apply emits_logger; exact I|intros _ w3].
      apply ends_completed_bind; [apply cloudflare_emits|intros rn w4].
      apply ends_completed_bind; [apply emits_lift|intros names w5].
      apply ends_completed_bind; [apply update_records_not_final|intros _ w6].
      exists []. split; [constructor|reflexivity]. }
    match goal with
    | |- context [match ?c w2 with _ => _ end] => destruct (c w2) as [[[u|e] w3] t3]
    end; unfold ends_completed, result_of, trace_of in Hend; simpl in Hend;
      intros [= <- _ <-].
    + destruct Hend as (t & Ht & ->).
      exists (Log INFO Starting_DDNS_update_process
              :: Open "secrets.yaml" (Returned secrets)
              :: Get "https://ipinfo.io/ip" r :: resolver_log r ++ t).
      split.
      * exact (proj2 (Forall_app not_final
                                 (Log INFO Starting_DDNS_update_process
                                  :: Open "secrets.yaml" (Returned secrets)
                                  :: Get "https://ipinfo.io/ip" r :: resolver_log r) t)
                      (conj Hhead Ht)).
      * left. simpl. now rewrite <- app_assoc.
    + exact (proj2 (Forall_app not_final
                               (Log INFO Starting_DDNS_update_process
                                :: Open "secrets.yaml" (Returned secrets)
                                :: Get "https://ipinfo.io/ip" r :: resolver_log r) t3)
                    (conj Hhead Hend)).
  - intros [= <- _ <-].
    exists (Log INFO Starting_DDNS_update_process
            :: Open "secrets.yaml" (Returned secrets)
            :: Get "https://ipinfo.io/ip" r :: resolver_log r).
    split; [exact Hhead|]. right. reflexivity.
Qed.

End Ending.

(** The scenario with two failures, read out: the record whose edit raises
    is a write failure, the one whose listing faults a lookup failure, and
    the third is still updated. *)
Example two_failures_outcomes :
  result_of (run_updater two_failures) = Returned tt /\
  outcomes (trace_of (run_updater two_failures))
  = [(YStr "a.example.com", write_failed);
     (YStr "c.example.com", lookup_failed);
     (YStr "b.example.com", updated)].
Proof. split; reflexivity. Qed.
